(** * smerger: the merge planner and the apply executor of [src/app/similar.py]

    A shallow embedding of the planning procedure ([make_plan]) and of the
    plan replay ([do_apply]), with the properties of the specification stated
    and settled against it.

    Conventions.
    - A [Path] of the program is held as the string [str(p)] in pathlib's
      normalised form; [p.name], [p.stem], [p.suffix] and [a / b] are string
      functions below.
    - The external facilities (stat, PIL, exiftool, imagehash, the clock) are
      the fields of a [World]; the file tree is a finite map from paths to
      nodes.
    - Python ints are [Z]; counters that only count are [nat]. *)

From stdpp Require Import gmap strings list fin_maps pretty.
From Stdlib Require Import ZArith Ascii String Lia.

Open Scope string_scope.

(** ** Strings and paths *)

Module Paths.

(** [s.startswith(pre)] *)
Definition startswith (s pre : string) : bool := String.prefix pre s.

(** [s.rpartition(c)] restricted to the case where [c] occurs: the text
    before the last [c] and the text after it. *)
Fixpoint rsplit (c : ascii) (s : string) : option (string * string) :=
  match s with
  | EmptyString => None
  | String a s' =>
      match rsplit c s' with
      | Some (l, r) => Some (String a l, r)
      | None => if Ascii.eqb a c then Some (EmptyString, s') else None
      end
  end.

(** [p.name]: the last component. *)
Definition name (p : string) : string :=
  match rsplit "/" p with
  | Some (_, r) => r
  | None => p
  end.

(** pathlib: [i = name.rfind('.')]; a suffix exists when [0 < i < len(name) - 1]. *)
Definition split_ext (n : string) : string * string :=
  match rsplit "." n with
  | Some (l, r) =>
      if bool_decide (l = "") || bool_decide (r = "") then (n, "")
      else (l, String "." r)
  | None => (n, "")
  end.

Definition stem (p : string) : string := fst (split_ext (name p)).
Definition suffix (p : string) : string := snd (split_ext (name p)).

(** [d / n] for a relative [n]. *)
Definition joinpath (d n : string) : string := d +:+ "/" +:+ n.

Definition ascii_lower (c : ascii) : ascii :=
  let n := nat_of_ascii c in
  if (65 <=? n)%nat && (n <=? 90)%nat then ascii_of_nat (n + 32) else c.

(** [s.lower()] on ASCII text. *)
Fixpoint lower (s : string) : string :=
  match s with
  | EmptyString => EmptyString
  | String c s' => String (ascii_lower c) (lower s')
  end.

(** [s.lstrip(".")] *)
Fixpoint lstrip_dot (s : string) : string :=
  match s with
  | String c s' => if Ascii.eqb c "." then lstrip_dot s' else s
  | EmptyString => EmptyString
  end.

(** The proper ancestors of a path, nearest last: every prefix that ends
    just before a separator (the root ["/"] for a leading separator). *)
Fixpoint ancestors_from (pre s : string) : list string :=
  match s with
  | EmptyString => []
  | String c s' =>
      let rest := ancestors_from (pre +:+ String c EmptyString) s' in
      if Ascii.eqb c "/"
      then (if bool_decide (pre = "") then "/" else pre) :: rest
      else rest
  end.

Definition ancestors (p : string) : list string := ancestors_from "" p.

End Paths.

(** ** Configuration (the module-level constants read from the environment) *)

Record Config := {
  MASTER : string;
  SOURCE : string;
  QUAR : string;
  DRY_RUN : bool;
  PHASH_THRESHOLD : Z;
  QUALITY_ORDER : list string
}.

(** The defaults of the source. *)
Definition default_config : Config := {|
  MASTER := "/data/MobileBackup";
  SOURCE := "/data/Google Fotos";
  QUAR := "/quarantine";
  DRY_RUN := true;
  PHASH_THRESHOLD := 8;
  QUALITY_ORDER := ["raw"; "heic"; "jpeg"; "png"; "other"]
|}.

(** ** The external facilities *)

(** What the facilities answer for a path at planning time.  Planning moves
    no file, so the answers do not change while a plan is built. *)
Record World := {
  (** [p.stat().st_size] *)
  st_size : string -> Z;
  (** [Image.open(p)]: [(width, height)], or [None] when opening raises *)
  image_dims : string -> option (Z * Z);
  (** [has_exif_datetime(p)] (exiftool) *)
  has_exif_datetime : string -> bool;
  (** [exif_yyyy_mm(p)]: the capture bucket ["YYYY/MM"] (exiftool, else mtime) *)
  exif_yyyy_mm : string -> string;
  (** [phash(p)]: the 64-bit perceptual hash, [None] when the image cannot
      be read *)
  phash : string -> option N;
  (** [int(time.time())] at the k-th reading of the clock *)
  clock : nat -> Z
}.

(** ** Quality scorer *)

(** [list.index], first position. *)
Fixpoint index_of (t : string) (l : list string) : option nat :=
  match l with
  | [] => None
  | x :: l' => if String.eqb x t then Some 0%nat else S <$> index_of t l'
  end.

Definition type_category (ext : string) : string :=
  if existsb (String.eqb ext) ["dng"; "cr2"; "cr3"; "nef"; "arw"] then "raw"
  else if existsb (String.eqb ext) ["heic"; "heif"] then "heic"
  else if existsb (String.eqb ext) ["jpg"; "jpeg"] then "jpeg"
  else if existsb (String.eqb ext) ["png"] then "png"
  else "other".

Definition file_type_rank (cfg : Config) (p : string) : Z :=
  let ext := Paths.lstrip_dot (Paths.lower (Paths.suffix p)) in
  let t := type_category ext in
  match index_of t (QUALITY_ORDER cfg) with
  | Some i => Z.of_nat i
  | None => Z.of_nat (List.length (QUALITY_ORDER cfg))
  end.

(** [resolution(p)]: [(width * height, width, height)], [(0, 0, 0)] on failure. *)
Definition resolution (w : World) (p : string) : Z * Z * Z :=
  match image_dims w p with
  | Some (wd, ht) => ((wd * ht)%Z, wd, ht)
  | None => (0%Z, 0%Z, 0%Z)
  end.

(** The score tuple [(t, -px, 0 if not ex else -1, -sz)]; smaller is better. *)
Definition Score : Type := Z * Z * Z * Z.

Definition file_score (cfg : Config) (w : World) (p : string) : Score :=
  let t := file_type_rank cfg p in
  let '(px, _, _) := resolution w p in
  let ex := has_exif_datetime w p in
  let sz := st_size w p in
  (t, (- px)%Z, if negb ex then 0%Z else (-1)%Z, (- sz)%Z).

(** Python's [<] on tuples of ints: lexicographic. *)
Definition score_lt (a b : Score) : bool :=
  let '(a1, a2, a3, a4) := a in
  let '(b1, b2, b3, b4) := b in
  (a1 <? b1)%Z ||
  ((a1 =? b1)%Z &&
   ((a2 <? b2)%Z ||
    ((a2 =? b2)%Z &&
     ((a3 <? b3)%Z ||
      ((a3 =? b3)%Z && (a4 <? b4)%Z))))).

(** [better(a, b)]: [a if file_score(a) < file_score(b) else b]. *)
Definition better (cfg : Config) (w : World) (a b : string) : string :=
  if score_lt (file_score cfg w a) (file_score cfg w b) then a else b.

(** ** Perceptual hashes *)

(** [hamming(a, b)]: imagehash's [a - b], the number of differing bits of
    the two 8x8 hashes. *)
Definition hamming (a b : N) : Z :=
  Z.of_nat (List.length
    (filter (fun i => N.testbit (N.lxor a b) (N.of_nat i)) (seq 0 64))).

(** A Python dict: insertion-ordered, a key assigned again keeps its place. *)
Fixpoint dict_set {V : Type} (d : list (string * V)) (k : string) (v : V)
  : list (string * V) :=
  match d with
  | [] => [(k, v)]
  | (k', v') :: d' =>
      if String.eqb k' k then (k', v) :: d' else (k', v') :: dict_set d' k v
  end.

(** [collect_by_phash(paths)]: [out[p] = phash(p)] for each path in turn. *)
Definition collect_by_phash (w : World) (paths : list string)
  : list (string * option N) :=
  fold_left (fun out p => dict_set out p (phash w p)) paths [].

(** ** Decisions: the tuples [(src, master, action, reason)] of
    [pairs_exact] and [pairs_sim] *)

Record Decision := {
  d_src : string;
  d_master : option string;
  d_action : string;
  d_reason : string
}.

Definition KEEP_MASTER : string := "KEEP_MASTER".
Definition MOVE_SOURCE : string := "MOVE_SOURCE".
Definition REPLACE_MASTER_WITH_SOURCE : string := "REPLACE_MASTER_WITH_SOURCE".

(** ** Exact-duplicate resolver (make_plan, the loop over [exact_groups]) *)

(** [has_master] / [has_source]: members whose string starts with the root. *)
Definition members_under (root : string) (g : list string) : list string :=
  filter (fun p => Is_true (Paths.startswith p root)) g.

(** [best = candidates[0]; for c in candidates[1:]: best = better(best, c)]
    with [candidates = has_master + [s]] and [has_master = m0 :: ms]. *)
Definition best_candidate (cfg : Config) (w : World)
    (m0 : string) (ms : list string) (s : string) : string :=
  fold_left (better cfg w) (ms ++ [s])%list m0.

(** [worst_m = has_master[0]; for m in has_master[1:]:
      worst_m = m if file_score(m) > file_score(worst_m) else worst_m] *)
Definition worst_master (cfg : Config) (w : World)
    (m0 : string) (ms : list string) : string :=
  fold_left
    (fun worst_m m =>
       if score_lt (file_score cfg w worst_m) (file_score cfg w m)
       then m else worst_m)
    ms m0.

(** The body of [for s in has_source]. *)
Definition exact_decision (cfg : Config) (w : World)
    (m0 : string) (ms : list string) (s : string) : Decision :=
  let best := best_candidate cfg w m0 ms s in
  if String.eqb best s then
    {| d_src := s; d_master := Some (worst_master cfg w m0 ms);
       d_action := REPLACE_MASTER_WITH_SOURCE;
       d_reason := "exact_dup_better_source" |}
  else
    {| d_src := s; d_master := Some best;
       d_action := KEEP_MASTER;
       d_reason := "exact_dup_master_better" |}.

(** One iteration of [for i, g in enumerate(exact_groups)], on the pair
    [(pairs_exact, exact_src_dups)]. *)
Definition exact_group_step (cfg : Config) (w : World)
    (acc : list Decision * gset string) (g : list string)
  : list Decision * gset string :=
  let has_master := members_under (MASTER cfg) g in
  let has_source := members_under (SOURCE cfg) g in
  match has_master, has_source with
  | [], _ | _, [] => acc
  | m0 :: ms, _ =>
      fold_left
        (fun '(pairs_exact, exact_src_dups) s =>
           ((pairs_exact ++ [exact_decision cfg w m0 ms s])%list,
            {[ s ]} ∪ exact_src_dups))
        has_source acc
  end.

Definition exact_phase (cfg : Config) (w : World)
    (exact_groups : list (list string)) : list Decision * gset string :=
  fold_left (exact_group_step cfg w) exact_groups ([], ∅).

(** ** Near-duplicate resolver (make_plan, the loop over [source_hash]) *)

(** One iteration of [for m, mh in master_hash.items()], on [(best_d, best_m)]. *)
Definition nearest_step (sh : N) (acc : Z * option string)
    (item : string * option N) : Z * option string :=
  let '(best_d, best_m) := acc in
  match snd item with
  | None => acc
  | Some mh =>
      let d := hamming sh mh in
      if (d <? best_d)%Z then (d, Some (fst item)) else acc
  end.

Definition nearest_master (sh : N) (master_hash : list (string * option N))
  : Z * option string :=
  fold_left (nearest_step sh) master_hash (999%Z, None).

(** The body of [for s, sh in source_hash.items()]. *)
Definition near_decision (cfg : Config) (w : World)
    (master_hash : list (string * option N)) (item : string * option N)
  : Decision :=
  let s := fst item in
  match snd item with
  | None =>
      {| d_src := s; d_master := None; d_action := MOVE_SOURCE;
         d_reason := "no_phash" |}
  | Some sh =>
      let '(best_d, best_m) := nearest_master sh master_hash in
      match best_m with
      | Some m =>
          if (best_d <=? PHASH_THRESHOLD cfg)%Z then
            let winner := better cfg w s m in
            if String.eqb winner s then
              {| d_src := s; d_master := Some m;
                 d_action := REPLACE_MASTER_WITH_SOURCE;
                 d_reason := "phash_dup_d" +:+ pretty best_d +:+ "_better_source" |}
            else
              {| d_src := s; d_master := Some m;
                 d_action := KEEP_MASTER;
                 d_reason := "phash_dup_d" +:+ pretty best_d +:+ "_master_better" |}
          else
            {| d_src := s; d_master := None; d_action := MOVE_SOURCE;
               d_reason := "unique_vs_master" |}
      | None =>
          {| d_src := s; d_master := None; d_action := MOVE_SOURCE;
             d_reason := "unique_vs_master" |}
      end
  end.

(** [remaining = [p for p in SOURCE_FILES if p not in exact_src_dups]] *)
Definition remaining_sources (SOURCE_FILES : list string)
    (exact_src_dups : gset string) : list string :=
  filter (fun p => p ∉ exact_src_dups) SOURCE_FILES.

Definition near_phase (cfg : Config) (w : World)
    (MASTER_FILES remaining : list string) : list Decision :=
  let master_hash := collect_by_phash w MASTER_FILES in
  let source_hash := collect_by_phash w remaining in
  map (near_decision cfg w master_hash) source_hash.

(** ** The file tree *)

(** A path holds a regular file (with its bytes) or a directory. *)
Inductive Node :=
| File (bytes : string)
| Dir.

Abbreviation FS := (gmap string Node).

(** [p.exists()] *)
Definition path_exists (fs : FS) (p : string) : bool :=
  match fs !! p with
  | Some _ => true
  | None => false
  end.

(** [d.mkdir(parents=True, exist_ok=True)]: the directory and each missing
    ancestor are created; what exists stays.  (Where a regular file is in
    the way Python raises an OSError; like the other errors of the operating
    system that the program neither tests for nor handles, this is outside
    the model.) *)
Definition mkdir_one (fs : FS) (d : string) : FS :=
  if path_exists fs d then fs else <[d := Dir]> fs.

Definition mkdir_p (d : string) (fs : FS) : FS :=
  fold_left mkdir_one (Paths.ancestors d ++ [d])%list fs.

(** [shutil.move(src, dst)] of a single entry of the tree onto a path that
    is free or holds a file: what was at [dst] is replaced (a rename).
    Moving a path that does not exist raises; this is the error [do_apply]
    guards against with [exists()].  (A destination that is an existing
    directory is outside the model.) *)
Definition shutil_move (src dst : string) (fs : FS) : option FS :=
  match fs !! src with
  | Some n => Some (<[dst := n]> (delete src fs))
  | None => None
  end.

(** ** Target path resolver (make_plan, the nested functions) *)

(** [filecmp(a, b)]: equal sizes and equal first 1024 bytes; [False] when
    either cannot be read as a file. *)
Definition filecmp (fs : FS) (a b : string) : bool :=
  match fs !! a, fs !! b with
  | Some (File ca), Some (File cb) =>
      if negb (String.length ca =? String.length cb)%nat then false
      else String.eqb (String.substring 0 1024 ca) (String.substring 0 1024 cb)
  | _, _ => false
  end.

(** [f"{stem}_{ts}{suffix}"] *)
Definition stamped_name (p : string) (ts : Z) : string :=
  Paths.stem p +:+ "_" +:+ pretty ts +:+ Paths.suffix p.

(** [target_path_for(p)], reading the clock at tick [k] when it needs a
    stamp; returns [(dest_dir, dest)] and the next tick. *)
Definition target_path_for (cfg : Config) (w : World) (fs : FS) (k : nat)
    (p : string) : string * string * nat :=
  let rel := exif_yyyy_mm w p in
  let dest_dir := Paths.joinpath (MASTER cfg) rel in
  let dest := Paths.joinpath dest_dir (Paths.name p) in
  if path_exists fs dest && negb (filecmp fs p dest) then
    let ts := clock w k in
    (dest_dir, Paths.joinpath dest_dir (stamped_name dest ts), S k)
  else (dest_dir, dest, k).

(** ** Plan builder *)

(** A row of the plan CSV; every column is text. *)
Record PlanRow := {
  action : string;
  src : string;
  master : string;
  target_dir : string;
  target_path : string;
  quarantine_path : string;
  reason : string;
  src_score : string;
  master_score : string
}.

(** [json.dumps] of a score tuple, and of [None]. *)
Definition json_score (sc : Score) : string :=
  let '(a, b, c, d) := sc in
  "[" +:+ pretty a +:+ ", " +:+ pretty b +:+ ", " +:+ pretty c +:+ ", "
      +:+ pretty d +:+ "]".

(** The quarantine path of a REPLACE row: [QUAR / m.name], stamped when
    that path exists; [QUAR] is created first. *)
Definition quarantine_for (cfg : Config) (w : World) (fs : FS) (k : nat)
    (m : string) : string * FS * nat :=
  let fs' := mkdir_p (QUAR cfg) fs in
  let qpath := Paths.joinpath (QUAR cfg) (Paths.name m) in
  if path_exists fs' qpath
  then (Paths.joinpath (QUAR cfg) (stamped_name m (clock w k)), fs', S k)
  else (qpath, fs', k).

(** One iteration of [for (s, m, act, why) in (pairs_exact + pairs_sim)],
    on the rows built so far, the file tree and the clock tick. *)
Definition row_step (cfg : Config) (w : World)
    (acc : list PlanRow * FS * nat) (d : Decision) : list PlanRow * FS * nat :=
  let '(rows, fs, k) := acc in
  let '(tdir, tpath, k1) := target_path_for cfg w fs k (d_src d) in
  let '(qpath, fs2, k2) :=
    match d_master d with
    | Some m =>
        if String.eqb (d_action d) REPLACE_MASTER_WITH_SOURCE
        then let '(q, fs', k') := quarantine_for cfg w fs k1 m in (Some q, fs', k')
        else (None, fs, k1)
    | None => (None, fs, k1)
    end in
  let row := {|
    action := d_action d;
    src := d_src d;
    master := match d_master d with Some m => m | None => "" end;
    target_dir := tdir;
    target_path := tpath;
    quarantine_path := match qpath with Some q => q | None => "" end;
    reason := d_reason d;
    src_score := json_score (file_score cfg w (d_src d));
    master_score :=
      match d_master d with
      | Some m => json_score (file_score cfg w m)
      | None => "null"
      end
  |} in
  ((rows ++ [row])%list, fs2, k2).

Definition build_rows (cfg : Config) (w : World) (fs : FS)
    (pairs : list Decision) : list PlanRow * FS * nat :=
  fold_left (row_step cfg w) pairs ([], fs, 0%nat).

(** What [make_plan] produces: the rows of the plan artifact, the two
    counts of the report, and the file tree it leaves.  (The artifacts are
    returned as values; their files under OUT are not part of the modelled
    tree.) *)
Record PlanOutput := {
  plan_pairs_exact : list Decision;
  plan_pairs_sim : list Decision;
  plan_rows : list PlanRow;
  report_source_total : nat;
  report_planned : nat;
  plan_fs : FS
}.

(** [make_plan()], given what the catalog ([scan_files]) and the grouping
    facility ([jdupes_groups]) return. *)
Definition make_plan (cfg : Config) (w : World) (fs : FS)
    (MASTER_FILES SOURCE_FILES : list string)
    (exact_groups : list (list string)) : PlanOutput :=
  let '(pairs_exact, exact_src_dups) := exact_phase cfg w exact_groups in
  let remaining := remaining_sources SOURCE_FILES exact_src_dups in
  let pairs_sim := near_phase cfg w MASTER_FILES remaining in
  let '(rows, fs', _) := build_rows cfg w fs (pairs_exact ++ pairs_sim)%list in
  {| plan_pairs_exact := pairs_exact;
     plan_pairs_sim := pairs_sim;
     plan_rows := rows;
     report_source_total := List.length SOURCE_FILES;
     report_planned := List.length (pairs_exact ++ pairs_sim)%list;
     plan_fs := fs' |}.

(** ** Apply executor *)

(** The calls that [do_apply] makes on the file tree, in order. *)
Inductive Event :=
| EvMkdir (d : string)
| EvMove (from to : string).

Definition is_move (e : Event) : bool :=
  match e with
  | EvMove _ _ => true
  | EvMkdir _ => false
  end.

Record ApplyState := {
  a_fs : FS;
  a_events : list Event;
  moved : nat;
  replaced : nat;
  kept : nat
}.

Definition initial_state (fs : FS) : ApplyState :=
  {| a_fs := fs; a_events := []; moved := 0; replaced := 0; kept := 0 |}.

(** [d.mkdir(parents=True, exist_ok=True)] as a step of the run. *)
Definition do_mkdir (d : string) (st : ApplyState) : ApplyState :=
  {| a_fs := mkdir_p d (a_fs st);
     a_events := (a_events st ++ [EvMkdir d])%list;
     moved := moved st; replaced := replaced st; kept := kept st |}.

(** [shutil.move(src, dst)] as a step of the run; [None] when it raises. *)
Definition do_move (from to : string) (st : ApplyState) : option ApplyState :=
  fs' ← shutil_move from to (a_fs st);
  Some {| a_fs := fs';
          a_events := (a_events st ++ [EvMove from to])%list;
          moved := moved st; replaced := replaced st; kept := kept st |}.

Definition tally_moved (st : ApplyState) : ApplyState :=
  {| a_fs := a_fs st; a_events := a_events st;
     moved := S (moved st); replaced := replaced st; kept := kept st |}.

Definition tally_replaced (st : ApplyState) : ApplyState :=
  {| a_fs := a_fs st; a_events := a_events st;
     moved := moved st; replaced := S (replaced st); kept := kept st |}.

Definition tally_kept (st : ApplyState) : ApplyState :=
  {| a_fs := a_fs st; a_events := a_events st;
     moved := moved st; replaced := replaced st; kept := S (kept st) |}.

(** The body of [for row in r]; [None] when an exception escapes. *)
Definition apply_row (cfg : Config) (st : ApplyState) (row : PlanRow)
  : option ApplyState :=
  let act := action row in
  let m := if String.eqb (master row) "" then None else Some (master row) in
  let qpath :=
    if String.eqb (quarantine_path row) "" then None
    else Some (quarantine_path row) in
  if String.eqb act KEEP_MASTER then Some (tally_kept st)
  else
    let st := do_mkdir (target_dir row) st in
    if String.eqb act MOVE_SOURCE then
      st ← (if negb (DRY_RUN cfg) && path_exists (a_fs st) (src row)
            then do_move (src row) (target_path row) st
            else Some st);
      Some (tally_moved st)
    else
      match m with
      | Some m =>
          if String.eqb act REPLACE_MASTER_WITH_SOURCE then
            st ← (if negb (DRY_RUN cfg) then
                    st ← (match qpath with
                          | Some q =>
                              if path_exists (a_fs st) m
                              then do_move m q (do_mkdir (QUAR cfg) st)
                              else Some st
                          | None => Some st
                          end);
                    if path_exists (a_fs st) (src row)
                    then do_move (src row) (target_path row) st
                    else Some st
                  else Some st);
            Some (tally_replaced st)
          else Some st
      | None => Some st
      end.

(** The loop over the rows: [inr] the final state, [inl] the state at which
    an exception escaped. *)
Fixpoint apply_rows (cfg : Config) (rows : list PlanRow) (st : ApplyState)
  : ApplyState + ApplyState :=
  match rows with
  | [] => inr st
  | row :: rows' =>
      match apply_row cfg st row with
      | Some st' => apply_rows cfg rows' st'
      | None => inl st
      end
  end.

(** How a run of [do_apply] ends. *)
Inductive ApplyResult :=
| SysExit (status : Z) (stderr : string) (fs : FS) (events : list Event)
| Raised (st : ApplyState)
| Finished (st : ApplyState) (stdout : string).

(** [do_apply()]; [plan] is [None] when [PLAN_CSV] does not exist. *)
Definition do_apply (cfg : Config) (plan : option (list PlanRow)) (fs : FS)
  : ApplyResult :=
  match plan with
  | None => SysExit 2 "Plan missing. Run 'plan' first." fs []
  | Some rows =>
      match apply_rows cfg rows (initial_state fs) with
      | inl st => Raised st
      | inr st =>
          Finished st
            ("APPLY done. moved=" +:+ pretty (moved st)
             +:+ ", replaced=" +:+ pretty (replaced st)
             +:+ ", kept=" +:+ pretty (kept st))
      end
  end.


(** ** Catalog ([is_media], [scan_files]) *)

(** [p.is_file()] *)
Definition is_file (fs : FS) (p : string) : bool :=
  match fs !! p with
  | Some (File _) => true
  | _ => false
  end.

(** [p.suffix.lower().lstrip(".")] *)
Definition file_ext (p : string) : string :=
  Paths.lstrip_dot (Paths.lower (Paths.suffix p)).

(** [is_media(p)]; [EXTS] is the configured set of extensions. *)
Definition is_media (EXTS : list string) (fs : FS) (p : string) : bool :=
  is_file fs p && existsb (String.eqb (file_ext p)) EXTS.

(** [scan_files(base)], given the paths that [base.rglob("*")] yields, in
    its order. *)
Definition scan_files (EXTS : list string) (fs : FS) (rglob : list string)
  : list string :=
  filter (fun p => Is_true (is_media EXTS fs p)) rglob.

(** ** Capture bucket ([exif_yyyy_mm]) *)

(** The whitespace of ASCII text, as [str.strip()] sees it (tab to
    carriage return, the four separators 28 to 31, space). *)
Definition is_space (c : ascii) : bool :=
  let n := nat_of_ascii c in
  ((9 <=? n)%nat && (n <=? 13)%nat) || ((28 <=? n)%nat && (n <=? 32)%nat).

Fixpoint lstrip (s : string) : string :=
  match s with
  | String c s' => if is_space c then lstrip s' else s
  | EmptyString => EmptyString
  end.

(** [s.rstrip()] *)
Fixpoint rstrip (s : string) : string :=
  match s with
  | EmptyString => EmptyString
  | String c s' =>
      match rstrip s' with
      | EmptyString => if is_space c then EmptyString else String c EmptyString
      | t => String c t
      end
  end.

(** [s.strip()] *)
Definition strip (s : string) : string := rstrip (lstrip s).

(** [":" in s] *)
Fixpoint has_colon (s : string) : bool :=
  match s with
  | EmptyString => false
  | String c s' => Ascii.eqb c ":" || has_colon s'
  end.

(** [s.split(":")], with the field being read in [cur]. *)
Fixpoint split_colon_from (cur s : string) : list string :=
  match s with
  | EmptyString => [cur]
  | String c s' =>
      if Ascii.eqb c ":" then cur :: split_colon_from EmptyString s'
      else split_colon_from (cur +:+ String c EmptyString) s'
  end.

Definition split_colon (s : string) : list string := split_colon_from EmptyString s.

(** One turn of [for line in res.stdout.splitlines()]: the bucket that the
    line makes the function return, if it does. *)
Definition bucket_of_line (line : string) : option string :=
  if negb (String.eqb (strip line) "") && has_colon line then
    match split_colon (strip line) with
    | y :: m :: _ =>
        if (String.length y =? 4)%nat && (String.length m =? 2)%nat
        then Some (y +:+ "/" +:+ m) else None
    | _ => None
    end
  else None.

Fixpoint first_bucket (lines : list string) : option string :=
  match lines with
  | [] => None
  | line :: rest =>
      match bucket_of_line line with
      | Some b => Some b
      | None => first_bucket rest
      end
  end.

(** [exif_yyyy_mm(p)], given the lines of exiftool's output ([None] when the
    call raises) and the bucket of the modification time
    ([time.strftime("%Y/%m", ...)]). *)
Definition exif_yyyy_mm_of (stdout_lines : option (list string))
    (mtime_bucket : string) : string :=
  match stdout_lines with
  | Some lines =>
      match first_bucket lines with
      | Some b => b
      | None => mtime_bucket
      end
  | None => mtime_bucket
  end.

(** ** Exact-duplicate groups ([jdupes_groups]) *)

(** A value as [json.loads] returns it; an object keeps its keys once, in
    order (a Python dict). *)
#[local] Unset Elimination Schemes.

Inductive Json :=
| JNull
| JBool (b : bool)
| JNum (n : Z)
| JStr (s : string)
| JArr (items : list Json)
| JObj (fields : list (string * Json)).

#[local] Set Elimination Schemes.

(** [d[k]] on the fields of a dict; [None] is the KeyError. *)
Fixpoint dict_get (fields : list (string * Json)) (k : string) : option Json :=
  match fields with
  | [] => None
  | (k', v) :: rest => if String.eqb k' k then Some v else dict_get rest k
  end.

(** The characters of a string, each as a string. *)
Fixpoint chars (s : string) : list string :=
  match s with
  | EmptyString => []
  | String c s' => String c EmptyString :: chars s'
  end.

(** What [for x in v] runs over: the items of a list, the keys of a dict,
    the characters of a string; [None] is the TypeError of the rest. *)
Definition py_iter (v : Json) : option (list Json) :=
  match v with
  | JArr items => Some items
  | JObj fields => Some (map (fun kv => JStr (fst kv)) fields)
  | JStr s => Some (map JStr (chars s))
  | _ => None
  end.

(** [Path(x["path"])]: [x] must be a dict with the key, the value text.
    Paths are normalised text throughout, so the text is kept as it is. *)
Definition member_path (x : Json) : option string :=
  match x with
  | JObj fields =>
      match dict_get fields "path" with
      | Some (JStr p) => Some p
      | _ => None
      end
  | _ => None
  end.

(** The decoding part of [jdupes_groups]: [js] is
    [json.loads(res.stdout or "{}")]; [None] when an exception escapes. *)
Definition jdupes_groups (js : Json) : option (list (list string)) :=
  match js with
  | JObj fields =>
      matches ← py_iter (match dict_get fields "matches" with
                         | Some v => v
                         | None => JArr []
                         end);
      mapM (fun g => members ← py_iter g; mapM member_path members) matches
  | _ => None
  end.
(** * Vocabulary of the statements *)

(** ** The order on scores *)

(** Lexicographic order on score tuples, as a proposition. *)
Definition lex_lt (a b : Score) : Prop :=
  let '(a1, a2, a3, a4) := a in
  let '(b1, b2, b3, b4) := b in
  (a1 < b1 \/ (a1 = b1 /\ (a2 < b2 \/ (a2 = b2 /\ (a3 < b3 \/ (a3 = b3 /\ a4 < b4))))))%Z.

Definition lex_le (a b : Score) : Prop := lex_lt a b \/ a = b.


(** ** Concrete inputs *)

Module Examples.

(** The example of the specification: [vacation.jpg], 1200x800, with
    metadata, in the master archive, and a byte-identical copy in the source
    batch.  (A short stand-in for the 2 MB of bytes; what the example turns on
    is that the two files have the same bytes, hence the same score.) *)
Definition vacation_master : string := "/data/MobileBackup/2023/07/vacation.jpg".
Definition vacation_source : string := "/data/Google Fotos/trip/vacation.jpg".

Definition vacation_bytes : string := "JFIF vacation".

Definition vacation_world : World := {|
  st_size := fun _ => Z.of_nat (String.length vacation_bytes);
  image_dims := fun _ => Some (1200%Z, 800%Z);
  has_exif_datetime := fun _ => true;
  exif_yyyy_mm := fun _ => "2023/07";
  phash := fun _ => Some 0%N;
  clock := fun _ => 1700000000%Z
|}.

Definition vacation_fs : FS :=
  {[ vacation_master := File vacation_bytes;
     vacation_source := File vacation_bytes ]}.

Definition live_config : Config := {|
  MASTER := "/data/MobileBackup";
  SOURCE := "/data/Google Fotos";
  QUAR := "/quarantine";
  DRY_RUN := false;
  PHASH_THRESHOLD := 8;
  QUALITY_ORDER := ["raw"; "heic"; "jpeg"; "png"; "other"]
|}.

(** A world in which the size of a file is the length of its name, so that
    scores differ. *)
Definition sized_world : World := {|
  st_size := fun p => Z.of_nat (String.length p);
  image_dims := fun _ => None;
  has_exif_datetime := fun _ => false;
  exif_yyyy_mm := fun _ => "2020/01";
  phash := fun _ => None;
  clock := fun _ => 1700000000%Z
|}.

End Examples.

(** ** Vocabulary for the planner *)

(** The decisions one group contributes to [pairs_exact]. *)
Definition group_decisions (cfg : Config) (w : World) (g : list string)
  : list Decision :=
  match members_under (MASTER cfg) g with
  | [] => []
  | m0 :: ms => map (exact_decision cfg w m0 ms) (members_under (SOURCE cfg) g)
  end.

(** The master files with a present hash, in enumeration order, each with
    its Hamming distance to the source hash [sh]. *)
Definition present_distances (sh : N) (master_hash : list (string * option N))
  : list (string * Z) :=
  omap (fun item => (fun mh => (fst item, hamming sh mh)) <$> snd item) master_hash.

(** The number of entries of a plan whose source is [p]. *)
Definition entries_of (p : string) (rows : list PlanRow) : nat :=
  List.length (filter (fun r => src r = p) rows).

Definition decisions_of (p : string) (ds : list Decision) : list Decision :=
  filter (fun d => d_src d = p) ds.

(** [(d, m)] is the first entry of least distance of [seen]; with no entry
    the scan still holds its initial [(999, None)]. *)
Definition first_least (acc : Z * option string) (seen : list (string * Z)) : Prop :=
  match acc with
  | (d, Some m) =>
      exists l1 l2, seen = (l1 ++ (m, d) :: l2)%list /\
        Forall (fun x => (d < snd x)%Z) l1 /\ Forall (fun x => (d <= snd x)%Z) l2
  | (d, None) => seen = [] /\ d = 999%Z
  end.

(** ** Vocabulary for the apply executor *)

(** [fs'] is [fs] with, at most, directories added at free paths. *)
Definition dirs_added (fs fs' : FS) : Prop :=
  forall p,
    match fs !! p with
    | Some n => fs' !! p = Some n
    | None => fs' !! p = None \/ fs' !! p = Some Dir
    end.

(** The rows that each tally counts. *)
Definition is_keep (r : PlanRow) : bool := String.eqb (action r) KEEP_MASTER.

Definition is_move_source (r : PlanRow) : bool := String.eqb (action r) MOVE_SOURCE.

Definition is_replace (r : PlanRow) : bool :=
  String.eqb (action r) REPLACE_MASTER_WITH_SOURCE && negb (String.eqb (master r) "").

Definition count_rows (P : PlanRow -> bool) (rows : list PlanRow) : nat :=
  List.length (filter (fun r => Is_true (P r)) rows).

(** The events of a run, whatever its end. *)
Definition run_events (r : ApplyResult) : list Event :=
  match r with
  | SysExit _ _ _ evs => evs
  | Raised st => a_events st
  | Finished st _ => a_events st
  end.

(** The file tree a run leaves. *)
Definition run_fs (r : ApplyResult) : FS :=
  match r with
  | SysExit _ _ fs _ => fs
  | Raised st => a_fs st
  | Finished st _ => a_fs st
  end.

(** [if p.exists(): shutil.move(p, to)] as a total step. *)
Definition move_if_exists (from to : string) (st : ApplyState) : ApplyState :=
  match a_fs st !! from with
  | Some n =>
      {| a_fs := <[to := n]> (delete from (a_fs st));
         a_events := (a_events st ++ [EvMove from to])%list;
         moved := moved st; replaced := replaced st; kept := kept st |}
  | None => st
  end.

(** The quarantine step of a REPLACE row in live mode. *)
Definition quarantine_step (cfg : Config) (row : PlanRow) (st : ApplyState)
  : ApplyState :=
  if String.eqb (quarantine_path row) "" then st
  else if path_exists (a_fs st) (master row)
       then move_if_exists (master row) (quarantine_path row) (do_mkdir (QUAR cfg) st)
       else st.

(** What one row does to the state of the run, as a total function
    ([apply_row_effect] below shows it is what [apply_row] returns). *)
Definition row_effect (cfg : Config) (st : ApplyState) (row : PlanRow) : ApplyState :=
  if is_keep row then tally_kept st
  else
    let st := do_mkdir (target_dir row) st in
    if is_move_source row then
      tally_moved
        (if DRY_RUN cfg then st else move_if_exists (src row) (target_path row) st)
    else if is_replace row then
      tally_replaced
        (if DRY_RUN cfg then st
         else move_if_exists (src row) (target_path row) (quarantine_step cfg row st))
    else st.

Definition b2n (b : bool) : nat := if b then 1%nat else 0%nat.

Module ApplyExamples.

(** A plan with one MOVE_SOURCE entry, and a tree that holds only the
    source file. *)
Definition img_src : string := "/data/Google Fotos/IMG_001.jpg".
Definition img_dir : string := "/data/MobileBackup/2020/01".
Definition img_target : string := "/data/MobileBackup/2020/01/IMG_001.jpg".

Definition move_plan : list PlanRow :=
  [ {| action := MOVE_SOURCE; src := img_src; master := "";
       target_dir := img_dir; target_path := img_target;
       quarantine_path := ""; reason := "unique_vs_master";
       src_score := "[2, 0, 0, -3]"; master_score := "null" |} ].

Definition move_fs : FS := {[ img_src := File "abc" ]}.

End ApplyExamples.

(** ** Vocabulary for target paths *)

(** No two entries share a non-empty target path. *)
Definition distinct_targets (rows : list PlanRow) : Prop :=
  forall (i j : nat) r1 r2,
    i <> j -> rows !! i = Some r1 -> rows !! j = Some r2 ->
    target_path r1 <> "" -> target_path r1 <> target_path r2.

(** The nominal target of a source file: master root / capture bucket / name. *)
Definition nominal_dir (cfg : Config) (w : World) (p : string) : string :=
  Paths.joinpath (MASTER cfg) (exif_yyyy_mm w p).

Definition nominal_target (cfg : Config) (w : World) (p : string) : string :=
  Paths.joinpath (nominal_dir cfg w p) (Paths.name p).

Module TargetExamples.

(** Two different pictures with the same file name and the same capture
    bucket, in two folders of the source batch; nothing in the master
    archive yet. *)
Definition img_a : string := "/data/Google Fotos/a/IMG_001.jpg".
Definition img_b : string := "/data/Google Fotos/b/IMG_001.jpg".

Definition clash_fs : FS :=
  {[ img_a := File "first picture"; img_b := File "another, longer picture" ]}.

Definition clash_world : World := {|
  st_size := fun p => if String.eqb p img_a then 13%Z else 23%Z;
  image_dims := fun _ => Some (640%Z, 480%Z);
  has_exif_datetime := fun _ => true;
  exif_yyyy_mm := fun _ => "2020/01";
  phash := fun _ => None;
  clock := fun _ => 1700000000%Z
|}.

Definition clash_plan : PlanOutput :=
  make_plan default_config clash_world clash_fs [] [img_a; img_b] [].

(** A picture whose nominal target is taken by a different file. *)
Definition taken_fs : FS :=
  {[ img_a := File "first picture";
     "/data/MobileBackup/2020/01/IMG_001.jpg" := File "something else" ]}.

End TargetExamples.

(** What the resolver guarantees for one row, against the tree [fs] that
    planning started from. *)
Definition target_resolved (cfg : Config) (w : World) (fs : FS) (r : PlanRow) : Prop :=
  let nominal := nominal_target cfg w (src r) in
  let stamped k :=
    Paths.joinpath (nominal_dir cfg w (src r)) (stamped_name nominal (clock w k)) in
  target_dir r = nominal_dir cfg w (src r) /\
  (target_path r = nominal \/ exists k, target_path r = stamped k) /\
  (path_exists fs nominal = true -> filecmp fs (src r) nominal = false ->
   target_path r <> nominal /\ exists k, target_path r = stamped k).

(** ** Vocabulary for replaying a plan *)

(** The directories a row makes sure exist. *)
Definition row_mkdirs (r : PlanRow) : list string :=
  if is_keep r then [] else (Paths.ancestors (target_dir r) ++ [target_dir r])%list.

(** The paths a row moves away in live mode: its source, and the recorded
    master of a REPLACE row with a quarantine path. *)
Definition row_moves_from (r : PlanRow) : list string :=
  if is_move_source r then [src r]
  else if is_replace r then
    ((if String.eqb (quarantine_path r) "" then [] else [master r]) ++ [src r])%list
  else [].

(** The paths a row can create or overwrite in live mode: the directories
    it makes, its target path and its quarantine path. *)
Definition row_writes (cfg : Config) (r : PlanRow) : list string :=
  (row_mkdirs r ++
   if is_move_source r then [target_path r]
   else if is_replace r then
     (if String.eqb (quarantine_path r) "" then []
      else Paths.ancestors (QUAR cfg) ++ [QUAR cfg; quarantine_path r])
     ++ [target_path r]
   else [])%list.

(** No path that the plan moves away is a path that the plan writes. *)
Definition replayable (cfg : Config) (rows : list PlanRow) : Prop :=
  forall r1 r2 p,
    r1 ∈ rows -> r2 ∈ rows -> p ∈ row_moves_from r1 -> p ∉ row_writes cfg r2.

(** [fs'] comes from [fs] by creating entries only at paths of [W] and
    removing entries only at paths of [R]. *)
Definition footprint (R W : list string) (fs fs' : FS) : Prop :=
  (forall p, p ∉ W -> fs !! p = None -> fs' !! p = None) /\
  (forall p, p ∉ R -> is_Some (fs !! p) -> is_Some (fs' !! p)).

(** A tree on which replaying [rows] has nothing left to do: nothing sits at
    a path a row moves away, and every directory a row makes exists. *)
Definition settled (rows : list PlanRow) (fs : FS) : Prop :=
  forall r, r ∈ rows ->
    (forall p, p ∈ row_moves_from r -> fs !! p = None) /\
    (forall d, d ∈ row_mkdirs r -> is_Some (fs !! d)).

Module ReplayExamples.

(** The plan that [make_plan] builds, in live mode, for the byte-identical
    [vacation.jpg] pair, and the tree that planning leaves. *)
Definition vacation_plan : PlanOutput :=
  make_plan Examples.live_config Examples.vacation_world Examples.vacation_fs
    [Examples.vacation_master] [Examples.vacation_source]
    [[Examples.vacation_master; Examples.vacation_source]].

Definition first_run : ApplyResult :=
  do_apply Examples.live_config (Some (plan_rows vacation_plan)) (plan_fs vacation_plan).

Definition second_run : ApplyResult :=
  do_apply Examples.live_config (Some (plan_rows vacation_plan)) (run_fs first_run).

End ReplayExamples.

Module WitnessInputs.

(** A REPLACE row for a better source copy of a master picture. *)
Definition replace_row : PlanRow :=
  {| action := REPLACE_MASTER_WITH_SOURCE;
     src := "/data/Google Fotos/trip/beach.heic";
     master := "/data/MobileBackup/2022/08/beach.jpg";
     target_dir := "/data/MobileBackup/2022/08";
     target_path := "/data/MobileBackup/2022/08/beach.heic";
     quarantine_path := "/quarantine/beach.jpg";
     reason := "phash_dup_d3_better_source";
     src_score := "[1, -12000000, -1, -2400000]";
     master_score := "[2, -12000000, -1, -3100000]" |}.

Definition beach_fs : FS :=
  {[ "/data/Google Fotos/trip/beach.heic" := File "heic bytes";
     "/data/MobileBackup/2022/08/beach.jpg" := File "jpeg bytes" ]}.

(** The plan for one picture whose nominal target is taken by another file. *)
Definition taken_plan : PlanOutput :=
  make_plan default_config TargetExamples.clash_world TargetExamples.taken_fs
    [] [TargetExamples.img_a] [].

(** The plan for the [vacation.jpg] pair when the grouping facility reports
    the pair, and when it reports nothing. *)
Definition grouped_plan : PlanOutput :=
  make_plan default_config Examples.vacation_world Examples.vacation_fs
    [Examples.vacation_master] [Examples.vacation_source]
    [[Examples.vacation_master; Examples.vacation_source]].

Definition ungrouped_plan : PlanOutput :=
  make_plan default_config Examples.vacation_world Examples.vacation_fs
    [Examples.vacation_master] [Examples.vacation_source] [].

End WitnessInputs.

(** ** Rows and decisions *)

(** The columns of a row that record the decision. *)
Definition row_columns (r : PlanRow) : string * string * string * string :=
  (action r, src r, master r, reason r).

Definition decision_columns (d : Decision) : string * string * string * string :=
  (d_action d, d_src d, match d_master d with Some m => m | None => "" end, d_reason d).

(** * Vocabulary of the further properties *)

(** The pixel count that the score uses: 0 for an unreadable image. *)
Definition pixels (w : World) (p : string) : Z := fst (fst (resolution w p)).

(** [a] outranks [b]: a preferred type; else more pixels; else capture
    metadata where [b] has none; else more bytes. *)
Definition outranks (cfg : Config) (w : World) (a b : string) : Prop :=
  (file_type_rank cfg a < file_type_rank cfg b)%Z \/
  (file_type_rank cfg a = file_type_rank cfg b /\
   ((pixels w b < pixels w a)%Z \/
    (pixels w a = pixels w b /\
     ((has_exif_datetime w a = true /\ has_exif_datetime w b = false) \/
      (has_exif_datetime w a = has_exif_datetime w b /\
       (st_size w b < st_size w a)%Z))))).

(** A decision as the two resolvers emit them: a REPLACE names a master. *)
Definition replace_has_master (d : Decision) : Prop :=
  d_action d = REPLACE_MASTER_WITH_SOURCE -> exists m, d_master d = Some m.

(** Whether a plan holds a REPLACE row. *)
Definition has_replace (rows : list PlanRow) : bool :=
  existsb (fun r => String.eqb (action r) REPLACE_MASTER_WITH_SOURCE) rows.

(** Every entry of [fs] is a directory or an entry that [fs0] held, at the
    same or another path. *)
Definition from_tree (fs0 fs : FS) : Prop :=
  forall p n, fs !! p = Some n -> n = Dir \/ exists q, fs0 !! q = Some n.

Module MoreInputs.

(** A KEEP_MASTER row. *)
Definition keep_row : PlanRow :=
  {| action := KEEP_MASTER; src := Examples.vacation_source;
     master := Examples.vacation_master;
     target_dir := "/data/MobileBackup/2023/07";
     target_path := Examples.vacation_master;
     quarantine_path := ""; reason := "exact_dup_master_better";
     src_score := "null"; master_score := "null" |}.

(** A MOVE_SOURCE row, and a REPLACE row whose master column is empty. *)
Definition move_row : PlanRow :=
  {| action := MOVE_SOURCE; src := ApplyExamples.img_src; master := "";
     target_dir := ApplyExamples.img_dir;
     target_path := ApplyExamples.img_target;
     quarantine_path := ""; reason := "unique_vs_master";
     src_score := "null"; master_score := "null" |}.

Definition blank_replace_row : PlanRow :=
  {| action := REPLACE_MASTER_WITH_SOURCE; src := ApplyExamples.img_src;
     master := ""; target_dir := ApplyExamples.img_dir;
     target_path := ApplyExamples.img_target; quarantine_path := "";
     reason := "phash_dup_d3_better_source";
     src_score := "null"; master_score := "null" |}.

End MoreInputs.

(** An extension as [is_media] computes it: lower case, no leading dot. *)
Definition normal_ext (e : string) : bool :=
  String.eqb (Paths.lower e) e && String.eqb (Paths.lstrip_dot e) e.

(** [x] is a match entry for the path [p]: a dict whose ["path"] is the
    text [p], whatever else it holds. *)
Definition member_entry (x : Json) (p : string) : Prop :=
  exists fields, x = JObj fields /\ dict_get fields "path" = Some (JStr p).
(** * Proofs *)

(** ** The order on scores *)

Ltac score_cases :=
  repeat match goal with
         | s : Score |- _ => destruct s as [[[? ?] ?] ?]
         end;
  unfold lex_le, lex_lt, score_lt in *;
  repeat match goal with
         | H : (_, _) = (_, _) |- _ => inversion H; clear H; subst
         end.

Lemma score_lt_spec (a b : Score) : score_lt a b = true <-> lex_lt a b.
Proof.
  score_cases.
  rewrite !orb_true_iff, !andb_true_iff, !orb_true_iff, !andb_true_iff,
          !orb_true_iff, !andb_true_iff, !Z.ltb_lt, !Z.eqb_eq.
  tauto.
Qed.

Lemma score_lt_false (a b : Score) : score_lt a b = false <-> lex_le b a.
Proof.
  rewrite <- not_true_iff_false, score_lt_spec.
  destruct a as [[[a1 a2] a3] a4], b as [[[b1 b2] b3] b4].
  unfold lex_le, lex_lt. split.
  - intros H.
    destruct (Z.lt_trichotomy b1 a1) as [?|[?|?]]; [left; lia | | exfalso; lia].
    destruct (Z.lt_trichotomy b2 a2) as [?|[?|?]]; [left; lia | | exfalso; lia].
    destruct (Z.lt_trichotomy b3 a3) as [?|[?|?]]; [left; lia | | exfalso; lia].
    destruct (Z.lt_trichotomy b4 a4) as [?|[?|?]]; [left; lia | | exfalso; lia].
    right. congruence.
  - intros [H | H] H'; [lia | inversion H; subst; lia].
Qed.

Lemma lex_lt_irrefl (a : Score) : ~ lex_lt a a.
Proof. score_cases. lia. Qed.

Lemma lex_lt_trans (a b c : Score) : lex_lt a b -> lex_lt b c -> lex_lt a c.
Proof. score_cases. lia. Qed.

Lemma lex_le_trans (a b c : Score) : lex_le a b -> lex_le b c -> lex_le a c.
Proof.
  intros [H1 | ->] [H2 | ->]; unfold lex_le; eauto using lex_lt_trans.
Qed.

Lemma lex_lt_asym (a b : Score) : lex_lt a b -> ~ lex_lt b a.
Proof. intros H1 H2. exact (lex_lt_irrefl a (lex_lt_trans _ _ _ H1 H2)). Qed.

Lemma lex_total (a b : Score) : lex_lt a b \/ a = b \/ lex_lt b a.
Proof.
  destruct (score_lt a b) eqn:E.
  - left. by apply score_lt_spec.
  - apply score_lt_false in E as [E | ->]; auto.
Qed.

(** ** C7: [better] *)

(** C7. For all files [a] and [b], [better a b] is the file whose score is
    strictly lower; on equal scores it is [b], the second argument.  Hence
    the result does not depend on the order of the arguments when the scores
    differ, and on a tie each call returns its own second argument. *)
Theorem better_lower_score_ties_second (cfg : Config) (w : World) (a b : string) :
  (lex_lt (file_score cfg w a) (file_score cfg w b) -> better cfg w a b = a) /\
  (lex_lt (file_score cfg w b) (file_score cfg w a) -> better cfg w a b = b) /\
  (file_score cfg w a = file_score cfg w b ->
     better cfg w a b = b /\ better cfg w b a = a) /\
  (file_score cfg w a <> file_score cfg w b ->
     better cfg w a b = better cfg w b a).
Proof.
  unfold better.
  set (sa := file_score cfg w a). set (sb := file_score cfg w b).
  split; [| split; [| split]].
  - intros L. apply score_lt_spec in L. by rewrite L.
  - intros L. destruct (score_lt sa sb) eqn:E; [| done].
    apply score_lt_spec in E. exfalso. by eapply lex_lt_asym.
  - intros E. rewrite E.
    assert (score_lt sb sb = false) as ->; [| done].
    apply score_lt_false. by right.
  - intros Hne. destruct (lex_total sa sb) as [L | [L | L]]; [| done |].
    + assert (score_lt sb sa = false) as ->.
      { apply score_lt_false. by left. }
      apply score_lt_spec in L. by rewrite L.
    + assert (score_lt sa sb = false) as ->.
      { apply score_lt_false. by left. }
      apply score_lt_spec in L. by rewrite L.
Qed.

Lemma better_lower_score_witness :
  better default_config Examples.sized_world "/a/long_name.jpg" "/a/b.jpg"
  = "/a/long_name.jpg".
Proof.
  apply (proj1 (better_lower_score_ties_second default_config
                  Examples.sized_world "/a/long_name.jpg" "/a/b.jpg")).
  vm_compute. right. split; [reflexivity |]. right. split; [reflexivity |].
  right. split; reflexivity.
Defined.

(** ** Exact-duplicate resolution *)

Lemma better_cases (cfg : Config) (w : World) (a b : string) :
  (better cfg w a b = a /\ lex_lt (file_score cfg w a) (file_score cfg w b)) \/
  (better cfg w a b = b /\ lex_le (file_score cfg w b) (file_score cfg w a)).
Proof.
  unfold better.
  destruct (score_lt (file_score cfg w a) (file_score cfg w b)) eqn:E.
  - left. split; [done |]. by apply score_lt_spec.
  - right. split; [done |]. by apply score_lt_false.
Qed.

(** The fold of [better] over the master members ends on a member of least
    score. *)
Lemma fold_better_least (cfg : Config) (w : World) (ms : list string) :
  forall m0,
    let bm := fold_left (better cfg w) ms m0 in
    bm ∈ m0 :: ms /\
    forall m, m ∈ m0 :: ms -> lex_le (file_score cfg w bm) (file_score cfg w m).
Proof.
  induction ms as [| m ms IH]; intros m0; simpl.
  - split; [apply list_elem_of_here |].
    intros m Hm. apply list_elem_of_singleton in Hm as ->. by right.
  - destruct (IH (better cfg w m0 m)) as [Hin Hle]. split.
    + destruct (better_cases cfg w m0 m) as [[E _] | [E _]];
        rewrite E in Hin |- *; apply elem_of_cons in Hin as [Hin | Hin];
        rewrite !elem_of_cons; auto.
    + intros x Hx.
      assert (lex_le (file_score cfg w (better cfg w m0 m)) (file_score cfg w m0)
              /\ lex_le (file_score cfg w (better cfg w m0 m)) (file_score cfg w m))
        as [H0 H1].
      { destruct (better_cases cfg w m0 m) as [[E L] | [E L]]; rewrite E;
          split; auto; try (by right); by left. }
      apply elem_of_cons in Hx as [-> | Hx].
      * eapply lex_le_trans; [| exact H0]. apply Hle, list_elem_of_here.
      * apply elem_of_cons in Hx as [-> | Hx].
        -- eapply lex_le_trans; [| exact H1]. apply Hle, list_elem_of_here.
        -- by apply Hle, list_elem_of_further.
Qed.

(** What the exact-duplicate loop decides for a source member [s]: one
    decision, REPLACE exactly when no master member scores strictly lower
    than [s] (so also on a tie), KEEP otherwise. *)
Lemma exact_decision_replace_iff (cfg : Config) (w : World)
    (m0 : string) (ms : list string) (s : string) :
  s ∉ m0 :: ms ->
  let d := exact_decision cfg w m0 ms s in
  d_src d = s /\
  (d_action d = REPLACE_MASTER_WITH_SOURCE \/ d_action d = KEEP_MASTER) /\
  (d_action d = REPLACE_MASTER_WITH_SOURCE <->
   forall m, m ∈ m0 :: ms -> lex_le (file_score cfg w s) (file_score cfg w m)).
Proof.
  intros Hs. unfold exact_decision, best_candidate.
  rewrite fold_left_app. simpl.
  destruct (fold_better_least cfg w ms m0) as [Hin Hle].
  set (bm := fold_left (better cfg w) ms m0) in *.
  destruct (better_cases cfg w bm s) as [[E L] | [E L]]; rewrite E.
  - assert (bm <> s) as Hne by (intros ->; contradiction).
    apply String.eqb_neq in Hne. rewrite Hne. simpl.
    split; [done |]. split; [by right |]. split; [done |].
    intros H. exfalso. destruct (H bm Hin) as [H' | H'].
    + by eapply lex_lt_asym.
    + rewrite H' in L. by apply lex_lt_irrefl in L.
  - rewrite String.eqb_refl. simpl.
    split; [done |]. split; [by left |]. split; [| done].
    intros _ m Hm. eapply lex_le_trans; [exact L | by apply Hle].
Qed.

(** C1 (evaluation at the input of the specification's example).  One
    group with the master [vacation.jpg] and its byte-identical source copy,
    equal scores: the resolver emits one decision for the source member, and
    it is REPLACE_MASTER_WITH_SOURCE with reason [exact_dup_better_source],
    not KEEP_MASTER. *)
Theorem exact_tie_replaces_master :
  file_score default_config Examples.vacation_world Examples.vacation_source
  = file_score default_config Examples.vacation_world Examples.vacation_master /\
  fst (exact_phase default_config Examples.vacation_world
         [[Examples.vacation_master; Examples.vacation_source]])
  = [ {| d_src := Examples.vacation_source;
         d_master := Some Examples.vacation_master;
         d_action := REPLACE_MASTER_WITH_SOURCE;
         d_reason := "exact_dup_better_source" |} ].
Proof. split; vm_compute; reflexivity. Qed.

(** The near-duplicate path on the same pair (when the grouping facility
    reports nothing): [better(s, best_m)] returns the master on a tie, and
    the decision is KEEP_MASTER. *)
Lemma near_tie_keeps_master :
  plan_pairs_sim WitnessInputs.ungrouped_plan
  = [ {| d_src := Examples.vacation_source;
         d_master := Some Examples.vacation_master;
         d_action := KEEP_MASTER;
         d_reason := "phash_dup_d0_master_better" |} ].
Proof. vm_compute. reflexivity. Qed.

(** ** The structure of [pairs_exact] and [exact_src_dups] *)

Lemma exact_inner_fold (f : string -> Decision) (l : list string) :
  forall (pe : list Decision) (ds : gset string),
    fold_left
      (fun '(pairs_exact, exact_src_dups) s =>
         ((pairs_exact ++ [f s])%list, {[ s ]} ∪ exact_src_dups))
      l (pe, ds)
    = ((pe ++ map f l)%list, list_to_set l ∪ ds).
Proof.
  induction l as [| s l IH]; intros pe ds; simpl.
  - rewrite app_nil_r. f_equal. set_solver.
  - rewrite IH, <- app_assoc. simpl. f_equal. set_solver.
Qed.

Lemma group_decisions_src (cfg : Config) (w : World) (g : list string) :
  map d_src (group_decisions cfg w g)
  = match members_under (MASTER cfg) g with
    | [] => []
    | _ :: _ => members_under (SOURCE cfg) g
    end.
Proof.
  unfold group_decisions.
  destruct (members_under (MASTER cfg) g) as [| m0 ms]; [done |].
  induction (members_under (SOURCE cfg) g) as [| s l IH]; [done |].
  simpl. rewrite IH. f_equal.
  unfold exact_decision. by destruct (String.eqb _ _).
Qed.

Lemma exact_group_step_eq (cfg : Config) (w : World)
    (pe : list Decision) (ds : gset string) (g : list string) :
  exact_group_step cfg w (pe, ds) g
  = ((pe ++ group_decisions cfg w g)%list,
     list_to_set (map d_src (group_decisions cfg w g)) ∪ ds).
Proof.
  rewrite group_decisions_src.
  unfold exact_group_step, group_decisions.
  destruct (members_under (MASTER cfg) g) as [| m0 ms].
  - rewrite app_nil_r. f_equal. set_solver.
  - destruct (members_under (SOURCE cfg) g) as [| s l] eqn:E.
    + rewrite app_nil_r. f_equal. set_solver.
    + rewrite <- E. apply exact_inner_fold.
Qed.

Lemma exact_phase_from (cfg : Config) (w : World) (groups : list (list string)) :
  forall (pe : list Decision) (ds : gset string),
    fold_left (exact_group_step cfg w) groups (pe, ds)
    = ((pe ++ List.concat (map (group_decisions cfg w) groups))%list,
       list_to_set (map d_src (List.concat (map (group_decisions cfg w) groups))) ∪ ds).
Proof.
  induction groups as [| g groups IH]; intros pe ds; simpl.
  - rewrite app_nil_r. f_equal. set_solver.
  - rewrite exact_group_step_eq, IH, <- app_assoc. f_equal.
    rewrite map_app, list_to_set_app_L. set_solver.
Qed.

Lemma exact_phase_eq (cfg : Config) (w : World) (groups : list (list string)) :
  exact_phase cfg w groups
  = (List.concat (map (group_decisions cfg w) groups),
     list_to_set (map d_src (List.concat (map (group_decisions cfg w) groups)))).
Proof.
  unfold exact_phase. rewrite exact_phase_from. simpl. f_equal. set_solver.
Qed.

Lemma group_decisions_sublist (cfg : Config) (w : World) (g : list string) :
  map d_src (group_decisions cfg w g) `sublist_of` g.
Proof.
  rewrite group_decisions_src.
  destruct (members_under (MASTER cfg) g); [apply sublist_nil_l |].
  apply sublist_filter.
Qed.

Lemma exact_sources_sublist (cfg : Config) (w : World) (groups : list (list string)) :
  map d_src (List.concat (map (group_decisions cfg w) groups))
  `sublist_of` List.concat groups.
Proof.
  induction groups as [| g groups IH]; simpl; [done |].
  rewrite map_app. apply sublist_app; [apply group_decisions_sublist | done].
Qed.

(** ** Python dicts as ordered association lists *)

Lemma dict_set_keys {V : Type} (d : list (string * V)) (k : string) (v : V) :
  map fst (dict_set d k v)
  = if decide (k ∈ map fst d) then map fst d else (map fst d ++ [k])%list.
Proof.
  induction d as [| [k' v'] d IH].
  - destruct (decide (k ∈ map fst (@nil (string * V)))) as [H | H]; [| done].
    by apply elem_of_nil in H.
  - cbn [dict_set]. destruct (String.eqb k' k) eqn:E.
    + apply String.eqb_eq in E as ->.
      destruct (decide (k ∈ map fst ((k, v') :: d))) as [H | H]; [done |].
      exfalso. apply H. apply list_elem_of_here.
    + apply String.eqb_neq in E. cbn [map fst]. rewrite IH.
      destruct (decide (k ∈ map fst d)) as [Hin | Hnin];
        destruct (decide (k ∈ k' :: map fst d)) as [H | H]; try done.
      * exfalso. apply H. by apply list_elem_of_further.
      * apply elem_of_cons in H as [-> | H]; contradiction.
Qed.

Lemma dict_set_values {V : Type} (f : string -> V) (d : list (string * V)) (k : string) :
  Forall (fun item => snd item = f (fst item)) d ->
  Forall (fun item => snd item = f (fst item)) (dict_set d k (f k)).
Proof.
  induction d as [| [k' v'] d IH]; simpl; intros H.
  - by constructor.
  - inversion H as [| ? ? Hh Ht]; subst. simpl in Hh.
    destruct (String.eqb k' k) eqn:E.
    + apply String.eqb_eq in E as ->. by constructor.
    + constructor; [done | by apply IH].
Qed.

Lemma collect_from (w : World) (paths : list string) :
  forall out : list (string * option N),
    NoDup (map fst out) ->
    Forall (fun item => snd item = phash w (fst item)) out ->
    let out' := fold_left (fun out p => dict_set out p (phash w p)) paths out in
    NoDup (map fst out') /\
    Forall (fun item => snd item = phash w (fst item)) out' /\
    (forall p, p ∈ map fst out' <-> p ∈ map fst out \/ p ∈ paths).
Proof.
  induction paths as [| q paths IH]; intros out Hnd Hv; simpl.
  - split; [done |]. split; [done |]. intros p. rewrite elem_of_nil. tauto.
  - destruct (IH (dict_set out q (phash w q))) as (H1 & H2 & H3).
    + rewrite dict_set_keys. destruct (decide (q ∈ map fst out)); [done |].
      apply NoDup_app. split; [done |]. split; [| apply NoDup_singleton].
      intros x Hx Hq. apply list_elem_of_singleton in Hq as ->. contradiction.
    + by apply (dict_set_values (phash w)).
    + split; [done |]. split; [done |].
      intros p. rewrite H3, dict_set_keys, elem_of_cons.
      destruct (decide (q ∈ map fst out)) as [Hq | Hq].
      * split; [tauto |]. intros [? | [-> | ?]]; auto.
      * rewrite elem_of_app, list_elem_of_singleton. tauto.
Qed.

(** The keys of [collect_by_phash(paths)] are the distinct paths, each once,
    and each is bound to its hash. *)
Lemma collect_by_phash_spec (w : World) (paths : list string) :
  NoDup (map fst (collect_by_phash w paths)) /\
  Forall (fun item => snd item = phash w (fst item)) (collect_by_phash w paths) /\
  (forall p, p ∈ map fst (collect_by_phash w paths) <-> p ∈ paths).
Proof.
  destruct (collect_from w paths [] (NoDup_nil_2) (Forall_nil_2 _)) as (H1 & H2 & H3).
  split; [done |]. split; [done |].
  intros p. rewrite H3. simpl. rewrite elem_of_nil. tauto.
Qed.

(** ** One entry per source file *)

Lemma near_decision_src (cfg : Config) (w : World)
    (master_hash : list (string * option N)) (item : string * option N) :
  d_src (near_decision cfg w master_hash item) = fst item.
Proof.
  unfold near_decision. destruct (snd item) as [sh |]; [| done].
  destruct (nearest_master sh master_hash) as [best_d [m |]]; [| done].
  destruct (best_d <=? PHASH_THRESHOLD cfg)%Z; [| done].
  by destruct (String.eqb _ _).
Qed.

Lemma near_phase_src (cfg : Config) (w : World) (MASTER_FILES remaining : list string) :
  map d_src (near_phase cfg w MASTER_FILES remaining)
  = map fst (collect_by_phash w remaining).
Proof.
  unfold near_phase. rewrite map_map.
  apply map_ext. intros item. apply near_decision_src.
Qed.

Lemma row_step_src (cfg : Config) (w : World)
    (rows : list PlanRow) (fs : FS) (k : nat) (d : Decision) :
  exists row fs' k',
    row_step cfg w (rows, fs, k) d = ((rows ++ [row])%list, fs', k') /\
    src row = d_src d /\ action row = d_action d /\
    master row = match d_master d with Some m => m | None => "" end.
Proof.
  unfold row_step.
  destruct (target_path_for cfg w fs k (d_src d)) as [[tdir tpath] k1].
  destruct (d_master d) as [m |].
  - destruct (String.eqb (d_action d) REPLACE_MASTER_WITH_SOURCE).
    + destruct (quarantine_for cfg w fs k1 m) as [[q fs'] k'].
      by eexists _, _, _.
    + by eexists _, _, _.
  - by eexists _, _, _.
Qed.

Lemma build_rows_from (cfg : Config) (w : World) (pairs : list Decision) :
  forall (rows : list PlanRow) (fs : FS) (k : nat),
    map src (fst (fst (fold_left (row_step cfg w) pairs (rows, fs, k))))
    = (map src rows ++ map d_src pairs)%list.
Proof.
  induction pairs as [| d pairs IH]; intros rows fs k; cbn [fold_left map].
  - by rewrite app_nil_r.
  - destruct (row_step_src cfg w rows fs k d) as (row & fs' & k' & -> & Hs & _).
    rewrite IH, map_app, <- app_assoc. cbn [map app]. by rewrite Hs.
Qed.

Lemma build_rows_src (cfg : Config) (w : World) (fs : FS) (pairs : list Decision) :
  map src (fst (fst (build_rows cfg w fs pairs))) = map d_src pairs.
Proof. unfold build_rows. by rewrite build_rows_from. Qed.

Lemma length_filter_map {A : Type} (f : A -> string) (p : string) (l : list A) :
  List.length (filter (fun x => f x = p) l)
  = List.length (filter (fun y => y = p) (map f l)).
Proof.
  induction l as [| x l IH]; [done |].
  cbn [map]. rewrite !filter_cons.
  destruct (decide (f x = p)); simpl; by rewrite IH.
Qed.

Lemma count_NoDup (p : string) (l : list string) :
  NoDup l ->
  List.length (filter (fun y => y = p) l) = if decide (p ∈ l) then 1%nat else 0%nat.
Proof.
  induction 1 as [| x l Hx Hnd IH]; [done |].
  rewrite filter_cons.
  destruct (decide (x = p)) as [-> | Hne].
  - simpl. rewrite IH.
    destruct (decide (p ∈ l)); [contradiction |].
    destruct (decide (p ∈ p :: l)) as [| H]; [done |].
    exfalso. apply H, list_elem_of_here.
  - rewrite IH.
    destruct (decide (p ∈ l)) as [Hin | Hnin];
      destruct (decide (p ∈ x :: l)) as [H | H]; try done.
    + exfalso. by apply H, list_elem_of_further.
    + apply elem_of_cons in H as [-> | H]; contradiction.
Qed.

(** Groups that are duplicate-free and pairwise disjoint list every path
    at most once. *)
Lemma disjoint_groups_NoDup (groups : list (list string)) :
  (forall g, g ∈ groups -> NoDup g) ->
  (forall (i j : nat) g h, i <> j -> groups !! i = Some g -> groups !! j = Some h ->
     forall x, x ∈ g -> x ∉ h) ->
  NoDup (List.concat groups).
Proof.
  induction groups as [| g groups IH]; intros Hnd Hdisj; simpl.
  - apply NoDup_nil_2.
  - apply NoDup_app. split; [apply Hnd, list_elem_of_here |]. split.
    + intros x Hx Hc. apply list_elem_of_In, in_concat in Hc as (h & Hh & Hxh).
      apply list_elem_of_In, list_elem_of_lookup in Hh as [j Hj].
      apply (Hdisj 0%nat (S j) g h ltac:(lia) eq_refl Hj x Hx).
      by apply list_elem_of_In.
    + apply IH.
      * intros h Hh. by apply Hnd, list_elem_of_further.
      * intros i j h1 h2 Hij H1 H2. apply (Hdisj (S i) (S j)); auto.
Qed.

Lemma make_plan_unfold (cfg : Config) (w : World) (fs : FS)
    (MASTER_FILES SOURCE_FILES : list string) (groups : list (list string)) :
  let out := make_plan cfg w fs MASTER_FILES SOURCE_FILES groups in
  let pe := List.concat (map (group_decisions cfg w) groups) in
  let dups : gset string := list_to_set (map d_src pe) in
  plan_pairs_exact out = pe /\
  snd (exact_phase cfg w groups) = dups /\
  plan_pairs_sim out
  = near_phase cfg w MASTER_FILES (remaining_sources SOURCE_FILES dups) /\
  plan_rows out
  = fst (fst (build_rows cfg w fs (plan_pairs_exact out ++ plan_pairs_sim out)%list)).
Proof.
  unfold make_plan. rewrite exact_phase_eq. cbn [snd].
  destruct (build_rows cfg w fs _) as [[rows fs'] k] eqn:E.
  cbn [plan_pairs_exact plan_pairs_sim plan_rows].
  repeat split. by rewrite E.
Qed.

(** C8. When the exact-duplicate groups are duplicate-free and pairwise
    disjoint, every enumerated source file is the source of exactly one plan
    entry: a file resolved in the exact-duplicate phase has its one decision
    there and none in the near-duplicate phase, and every other file has
    exactly one near-duplicate decision. *)
Theorem source_file_in_exactly_one_entry (cfg : Config) (w : World) (fs : FS)
    (MASTER_FILES SOURCE_FILES : list string) (groups : list (list string))
    (p : string) :
  (forall g, g ∈ groups -> NoDup g) ->
  (forall (i j : nat) g h, i <> j -> groups !! i = Some g -> groups !! j = Some h ->
     forall x, x ∈ g -> x ∉ h) ->
  p ∈ SOURCE_FILES ->
  let out := make_plan cfg w fs MASTER_FILES SOURCE_FILES groups in
  let exact_src_dups := snd (exact_phase cfg w groups) in
  entries_of p (plan_rows out) = 1%nat /\
  (if decide (p ∈ exact_src_dups)
   then List.length (decisions_of p (plan_pairs_exact out)) = 1%nat /\
        List.length (decisions_of p (plan_pairs_sim out)) = 0%nat
   else List.length (decisions_of p (plan_pairs_exact out)) = 0%nat /\
        List.length (decisions_of p (plan_pairs_sim out)) = 1%nat).
Proof.
  intros Hnd Hdisj Hp out exact_src_dups.
  destruct (make_plan_unfold cfg w fs MASTER_FILES SOURCE_FILES groups)
    as (Hpe & Hdups & Hps & Hrows).
  fold out in Hpe, Hps, Hrows. fold exact_src_dups in Hdups.
  set (pe := List.concat (map (group_decisions cfg w) groups)) in *.
  (* the exact-duplicate decisions name each source at most once *)
  assert (NoDup (map d_src pe)) as Hnd_pe.
  { eapply sublist_NoDup; [| apply exact_sources_sublist].
    by apply disjoint_groups_NoDup. }
  assert (List.length (decisions_of p (plan_pairs_exact out))
          = if decide (p ∈ exact_src_dups) then 1%nat else 0%nat) as Hcount_e.
  { unfold decisions_of. rewrite Hpe, length_filter_map, count_NoDup by done.
    rewrite Hdups.
    destruct (decide (p ∈ map d_src pe)) as [H | H];
      destruct (decide (p ∈ (list_to_set (map d_src pe) : gset string))) as [H' | H'];
      try done; exfalso.
    - apply H'. by apply elem_of_list_to_set.
    - apply H. by apply elem_of_list_to_set in H'. }
  (* the near-duplicate decisions name each remaining source once *)
  assert (List.length (decisions_of p (plan_pairs_sim out))
          = if decide (p ∈ exact_src_dups) then 0%nat else 1%nat) as Hcount_s.
  { unfold decisions_of. rewrite Hps, length_filter_map, near_phase_src.
    destruct (collect_by_phash_spec w
                (remaining_sources SOURCE_FILES (list_to_set (map d_src pe))))
      as (Hk & _ & Hmem).
    rewrite count_NoDup by done. rewrite Hdups.
    unfold remaining_sources in Hmem.
    destruct (decide (p ∈ map fst _)) as [H | H];
      destruct (decide (p ∈ (list_to_set (map d_src pe) : gset string))) as [H' | H'];
      try done; exfalso.
    - apply Hmem, list_elem_of_filter in H as [H _]. contradiction.
    - apply H, Hmem, list_elem_of_filter. done. }
  split.
  - unfold entries_of. rewrite length_filter_map, Hrows, build_rows_src.
    rewrite map_app, filter_app, length_app.
    unfold decisions_of in Hcount_e, Hcount_s.
    rewrite length_filter_map in Hcount_e, Hcount_s.
    rewrite Hcount_e, Hcount_s. by destruct (decide (p ∈ exact_src_dups)).
  - rewrite Hcount_e, Hcount_s. by destruct (decide (p ∈ exact_src_dups)).
Qed.

Lemma source_file_in_exactly_one_entry_witness :
  NoDup [Examples.vacation_master; Examples.vacation_source] /\
  Examples.vacation_source ∈ [Examples.vacation_source] /\
  entries_of Examples.vacation_source (plan_rows WitnessInputs.grouped_plan) = 1%nat.
Proof.
  assert (NoDup [Examples.vacation_master; Examples.vacation_source]) as Hnd.
  { apply (bool_decide_unpack _). vm_compute. exact I. }
  split; [exact Hnd |]. split; [apply list_elem_of_here |].
  refine (proj1 (source_file_in_exactly_one_entry default_config Examples.vacation_world
                   Examples.vacation_fs [Examples.vacation_master]
                   [Examples.vacation_source]
                   [[Examples.vacation_master; Examples.vacation_source]]
                   Examples.vacation_source _ _ (list_elem_of_here _ _))).
  - intros g Hg. apply list_elem_of_singleton in Hg. rewrite Hg. exact Hnd.
  - intros i j g h Hij Hi Hj.
    destruct i as [| i], j as [| j]; try done.
Defined.

(** ** Rows and decisions *)

Lemma row_step_columns (cfg : Config) (w : World)
    (rows : list PlanRow) (fs : FS) (k : nat) (d : Decision) :
  exists row fs' k',
    row_step cfg w (rows, fs, k) d = ((rows ++ [row])%list, fs', k') /\
    row_columns row = decision_columns d.
Proof.
  unfold row_step, row_columns, decision_columns.
  destruct (target_path_for cfg w fs k (d_src d)) as [[tdir tpath] k1].
  destruct (d_master d) as [m |].
  - destruct (String.eqb (d_action d) REPLACE_MASTER_WITH_SOURCE).
    + destruct (quarantine_for cfg w fs k1 m) as [[q fs'] k'].
      by eexists _, _, _.
    + by eexists _, _, _.
  - by eexists _, _, _.
Qed.

Lemma build_rows_columns (cfg : Config) (w : World) (pairs : list Decision) :
  forall (rows : list PlanRow) (fs : FS) (k : nat),
    map row_columns (fst (fst (fold_left (row_step cfg w) pairs (rows, fs, k))))
    = (map row_columns rows ++ map decision_columns pairs)%list.
Proof.
  induction pairs as [| d pairs IH]; intros rows fs k; cbn [fold_left map].
  - by rewrite app_nil_r.
  - destruct (row_step_columns cfg w rows fs k d) as (row & fs' & k' & -> & Hc).
    rewrite IH, map_app, <- app_assoc. cbn [map app]. by rewrite Hc.
Qed.

(** The rows of the plan are the exact-duplicate decisions followed by the
    near-duplicate decisions, one row per decision, in order. *)
Lemma plan_rows_follow_decisions (cfg : Config) (w : World) (fs : FS)
    (MASTER_FILES SOURCE_FILES : list string) (groups : list (list string)) :
  let out := make_plan cfg w fs MASTER_FILES SOURCE_FILES groups in
  map row_columns (plan_rows out)
  = map decision_columns (plan_pairs_exact out ++ plan_pairs_sim out)%list.
Proof.
  destruct (make_plan_unfold cfg w fs MASTER_FILES SOURCE_FILES groups)
    as (_ & _ & _ & Hrows).
  cbv zeta. rewrite Hrows. unfold build_rows. by rewrite build_rows_columns.
Qed.

(** ** Near-duplicate resolution *)

Lemma hamming_range (a b : N) : (0 <= hamming a b <= 64)%Z.
Proof.
  unfold hamming.
  pose proof (length_filter (fun i => N.testbit (N.lxor a b) (N.of_nat i)) (seq 0 64)) as H.
  rewrite length_seq in H. lia.
Qed.

Section Scan.

Variable sh : N.

Lemma present_distances_cons (item : string * option N)
    (items : list (string * option N)) :
  present_distances sh (item :: items)
  = (match snd item with
     | Some mh => [(fst item, hamming sh mh)]
     | None => []
     end ++ present_distances sh items)%list.
Proof. unfold present_distances. simpl. by destruct (snd item). Qed.

Lemma nearest_step_first_least (acc : Z * option string)
    (seen : list (string * Z)) (item : string * option N) :
  first_least acc seen ->
  first_least (nearest_step sh acc item)
    (seen ++ match snd item with
             | Some mh => [(fst item, hamming sh mh)]
             | None => []
             end)%list.
Proof.
  destruct acc as [best_d best_m]. unfold nearest_step.
  destruct (snd item) as [mh |]; [| by rewrite app_nil_r].
  pose proof (hamming_range sh mh) as Hr.
  destruct (hamming sh mh <? best_d)%Z eqn:E.
  - apply Z.ltb_lt in E. intros H. cbn [first_least].
    exists seen, []. split; [done |]. split; [| constructor].
    destruct best_m as [m |]; cbn [first_least] in H.
    + destruct H as (l1 & l2 & -> & H1 & H2).
      apply Forall_app. split.
      * eapply Forall_impl; [exact H1 |]. intros x Hx. simpl in Hx. lia.
      * constructor; [simpl; lia |].
        eapply Forall_impl; [exact H2 |]. intros x Hx. simpl in Hx. lia.
    + destruct H as [-> _]. constructor.
  - apply Z.ltb_ge in E. intros H.
    destruct best_m as [m |]; cbn [first_least] in H |- *.
    + destruct H as (l1 & l2 & -> & H1 & H2).
      exists l1, (l2 ++ [(fst item, hamming sh mh)])%list.
      split; [by rewrite <- app_assoc |]. split; [done |].
      apply Forall_app. split; [done |]. constructor; [simpl; lia | constructor].
    + destruct H as [_ ->]. lia.
Qed.

Lemma nearest_fold_first_least (items : list (string * option N)) :
  forall acc seen,
    first_least acc seen ->
    first_least (fold_left (nearest_step sh) items acc)
      (seen ++ present_distances sh items)%list.
Proof.
  induction items as [| item items IH]; intros acc seen H.
  - by rewrite app_nil_r.
  - cbn [fold_left]. rewrite present_distances_cons, app_assoc.
    apply IH. by apply nearest_step_first_least.
Qed.

(** The scan returns the first master of least distance among those with a
    present hash, or [(999, None)] when there is none. *)
Lemma nearest_master_first_least (master_hash : list (string * option N)) :
  first_least (nearest_master sh master_hash) (present_distances sh master_hash).
Proof.
  unfold nearest_master.
  apply (nearest_fold_first_least master_hash (999%Z, None) []).
  by split.
Qed.

End Scan.

Lemma filter_by_key {A : Type} (f : string * A -> Decision)
    (l : list (string * A)) (s : string) (v : A) :
  (forall item, d_src (f item) = fst item) ->
  NoDup (map fst l) -> (s, v) ∈ l ->
  decisions_of s (map f l) = [f (s, v)].
Proof.
  intros Hf. unfold decisions_of.
  induction l as [| [k x] l IH]; intros Hnd Hin.
  - by apply elem_of_nil in Hin.
  - cbn [map fst] in Hnd. apply NoDup_cons in Hnd as [Hk Hnd].
    cbn [map]. rewrite filter_cons, Hf. cbn [fst].
    apply elem_of_cons in Hin as [Heq | Hin].
    + inversion Heq; subst. rewrite decide_True by done. f_equal.
      clear IH. induction l as [| [k' x'] l IH']; [done |].
      cbn [map]. rewrite filter_cons, Hf. cbn [fst].
      cbn [map fst] in Hk, Hnd.
      apply not_elem_of_cons in Hk as [Hne Hk]. apply NoDup_cons in Hnd as [_ Hnd].
      rewrite decide_False by done. by apply IH'.
    + rewrite decide_False.
      * by apply IH.
      * intros ->. apply Hk. apply list_elem_of_In, in_map_iff.
        exists (s, v). split; [done | by apply list_elem_of_In].
Qed.

(** C4. Every source file [s] that the exact-duplicate phase did not resolve
    gets exactly one near-duplicate decision, of exactly one of three kinds:
    - its hash is absent: MOVE_SOURCE, reason [no_phash];
    - some master file with a present hash lies within the threshold: the
      matched master [m] is the first one of least distance [dist] in the
      enumeration order of the master hashes, the least distance is at most
      the threshold, and the action is REPLACE_MASTER_WITH_SOURCE or
      KEEP_MASTER with the distance written into the reason;
    - otherwise (every present master hash is farther than the threshold, or
      there is none): MOVE_SOURCE, reason [unique_vs_master]. *)
Theorem near_duplicate_classification (cfg : Config) (w : World) (fs : FS)
    (MASTER_FILES SOURCE_FILES : list string) (groups : list (list string))
    (s : string) :
  s ∈ SOURCE_FILES ->
  s ∉ snd (exact_phase cfg w groups) ->
  let out := make_plan cfg w fs MASTER_FILES SOURCE_FILES groups in
  let master_hash := collect_by_phash w MASTER_FILES in
  exists d,
    decisions_of s (plan_pairs_sim out) = [d] /\
    match phash w s with
    | None =>
        d = {| d_src := s; d_master := None; d_action := MOVE_SOURCE;
               d_reason := "no_phash" |}
    | Some sh =>
        (exists m dist l1 l2,
            present_distances sh master_hash = (l1 ++ (m, dist) :: l2)%list /\
            Forall (fun x => (dist < snd x)%Z) l1 /\
            Forall (fun x => (dist <= snd x)%Z) l2 /\
            (dist <= PHASH_THRESHOLD cfg)%Z /\
            (d = {| d_src := s; d_master := Some m;
                    d_action := REPLACE_MASTER_WITH_SOURCE;
                    d_reason := "phash_dup_d" +:+ pretty dist +:+ "_better_source" |}
             \/
             d = {| d_src := s; d_master := Some m;
                    d_action := KEEP_MASTER;
                    d_reason := "phash_dup_d" +:+ pretty dist +:+ "_master_better" |}))
        \/
        ((forall x, x ∈ present_distances sh master_hash ->
            (PHASH_THRESHOLD cfg < snd x)%Z) /\
         d = {| d_src := s; d_master := None; d_action := MOVE_SOURCE;
                d_reason := "unique_vs_master" |})
    end.
Proof.
  intros Hs Hnot out master_hash.
  destruct (make_plan_unfold cfg w fs MASTER_FILES SOURCE_FILES groups)
    as (_ & Hdups & Hps & _).
  fold out in Hps. rewrite Hdups in Hnot.
  set (dups := list_to_set _ : gset string) in *.
  destruct (collect_by_phash_spec w (remaining_sources SOURCE_FILES dups))
    as (Hnd & Hval & Hmem).
  (* the item of [s] in [source_hash] *)
  assert ((s, phash w s) ∈ collect_by_phash w (remaining_sources SOURCE_FILES dups))
    as Hitem.
  { assert (s ∈ map fst (collect_by_phash w (remaining_sources SOURCE_FILES dups)))
      as Hk by (apply Hmem, list_elem_of_filter; done).
    apply list_elem_of_In, in_map_iff in Hk as ([k v] & Hk & Hin).
    simpl in Hk. subst k. apply list_elem_of_In in Hin.
    rewrite Forall_forall in Hval. specialize (Hval _ Hin). simpl in Hval.
    by subst v. }
  exists (near_decision cfg w master_hash (s, phash w s)). split.
  { rewrite Hps. unfold near_phase. fold master_hash.
    apply filter_by_key; auto. intros item. apply near_decision_src. }
  unfold near_decision. cbn [fst snd].
  destruct (phash w s) as [sh |]; [| done].
  pose proof (nearest_master_first_least sh master_hash) as Hfl.
  destruct (nearest_master sh master_hash) as [best_d [m |]]; cbn [first_least] in Hfl.
  - destruct Hfl as (l1 & l2 & Hsplit & H1 & H2).
    destruct (best_d <=? PHASH_THRESHOLD cfg)%Z eqn:E.
    + apply Z.leb_le in E. left. exists m, best_d, l1, l2.
      repeat (split; [done |]).
      destruct (String.eqb (better cfg w s m) s); auto.
    + apply Z.leb_gt in E. right. split; [| done].
      intros x Hx. rewrite Hsplit in Hx.
      rewrite Forall_forall in H1, H2.
      apply elem_of_app in Hx as [Hx | Hx].
      * specialize (H1 _ Hx). lia.
      * apply elem_of_cons in Hx as [-> | Hx]; [simpl; lia |].
        specialize (H2 _ Hx). lia.
  - destruct Hfl as [Hnil _]. right. split; [| done].
    intros x Hx. rewrite Hnil in Hx. by apply elem_of_nil in Hx.
Qed.

Lemma near_duplicate_classification_witness :
  Examples.vacation_source ∈ [Examples.vacation_source] /\
  (Examples.vacation_source
     ∉ snd (exact_phase default_config Examples.vacation_world [])) /\
  exists d,
    decisions_of Examples.vacation_source (plan_pairs_sim WitnessInputs.ungrouped_plan)
    = [d].
Proof.
  assert (Examples.vacation_source
            ∉ snd (exact_phase default_config Examples.vacation_world [])) as Hnot.
  { apply (bool_decide_unpack _). vm_compute. exact I. }
  split; [apply list_elem_of_here |]. split; [exact Hnot |].
  destruct (near_duplicate_classification default_config Examples.vacation_world
              Examples.vacation_fs [Examples.vacation_master]
              [Examples.vacation_source] [] Examples.vacation_source
              (list_elem_of_here _ _) Hnot) as (d & Hd & _).
  by exists d.
Defined.

(** ** The file tree under [mkdir] and [move] *)

Lemma dirs_added_refl (fs : FS) : dirs_added fs fs.
Proof. intros p. destruct (fs !! p); auto. Qed.

Lemma dirs_added_trans (fs1 fs2 fs3 : FS) :
  dirs_added fs1 fs2 -> dirs_added fs2 fs3 -> dirs_added fs1 fs3.
Proof.
  intros H12 H23 p. specialize (H12 p). specialize (H23 p).
  destruct (fs1 !! p) as [n |].
  - by rewrite H12 in H23.
  - destruct H12 as [H | H]; rewrite H in H23; auto.
Qed.

Lemma mkdir_one_dirs_added (fs : FS) (d : string) : dirs_added fs (mkdir_one fs d).
Proof.
  unfold mkdir_one, path_exists. destruct (fs !! d) eqn:E.
  - apply dirs_added_refl.
  - intros p. destruct (decide (d = p)) as [<- | Hne].
    + rewrite E, lookup_insert_eq. by right.
    + rewrite lookup_insert_ne by done. destruct (fs !! p); auto.
Qed.

Lemma mkdir_fold_dirs_added (ds : list string) :
  forall fs, dirs_added fs (fold_left mkdir_one ds fs).
Proof.
  induction ds as [| d ds IH]; intros fs; cbn [fold_left].
  - apply dirs_added_refl.
  - eapply dirs_added_trans; [apply mkdir_one_dirs_added | apply IH].
Qed.

Lemma mkdir_p_dirs_added (d : string) (fs : FS) : dirs_added fs (mkdir_p d fs).
Proof. apply mkdir_fold_dirs_added. Qed.

Lemma dirs_added_exists (fs fs' : FS) (p : string) :
  dirs_added fs fs' -> path_exists fs p = true -> path_exists fs' p = true.
Proof.
  intros H. specialize (H p). unfold path_exists.
  destruct (fs !! p); [by rewrite H | done].
Qed.

(** [mkdir] changes nothing when the directory and its ancestors exist. *)
Lemma mkdir_fold_id (ds : list string) (fs : FS) :
  Forall (fun d => path_exists fs d = true) ds -> fold_left mkdir_one ds fs = fs.
Proof.
  induction 1 as [| d ds Hd _ IH]; [done |].
  cbn [fold_left]. unfold mkdir_one at 2. by rewrite Hd.
Qed.

Lemma mkdir_fold_made (ds : list string) :
  forall fs, Forall (fun d => path_exists (fold_left mkdir_one ds fs) d = true) ds.
Proof.
  induction ds as [| d ds IH]; intros fs; [constructor |].
  cbn [fold_left]. constructor; [| apply IH].
  eapply dirs_added_exists; [apply mkdir_fold_dirs_added |].
  unfold mkdir_one. destruct (path_exists fs d) eqn:E; [done |].
  unfold path_exists. by rewrite lookup_insert_eq.
Qed.

Lemma shutil_move_exists (src dst : string) (fs : FS) :
  path_exists fs src = true ->
  exists n, fs !! src = Some n /\
            shutil_move src dst fs = Some (<[dst := n]> (delete src fs)).
Proof.
  unfold path_exists, shutil_move. destruct (fs !! src) as [n |]; [| done].
  intros _. by exists n.
Qed.

(** ** C2: target paths *)

(** C2 (counterexample).  Two content-distinct source files (different
    sizes, different first bytes) with the same file name and the same
    capture bucket: the plan assigns both entries the same target path. *)
Lemma same_target_for_distinct_files :
  filecmp TargetExamples.clash_fs TargetExamples.img_a TargetExamples.img_b = false /\
  map src (plan_rows TargetExamples.clash_plan)
  = [TargetExamples.img_a; TargetExamples.img_b] /\
  map target_path (plan_rows TargetExamples.clash_plan)
  = ["/data/MobileBackup/2020/01/IMG_001.jpg";
     "/data/MobileBackup/2020/01/IMG_001.jpg"] /\
  ~ distinct_targets (plan_rows TargetExamples.clash_plan).
Proof.
  split; [vm_compute; reflexivity |].
  split; [vm_compute; reflexivity |].
  split; [vm_compute; reflexivity |].
  intros H.
  destruct (plan_rows TargetExamples.clash_plan) as [| r1 [| r2 rest]] eqn:E;
    try (vm_compute in E; discriminate).
  assert (target_path r1 = "/data/MobileBackup/2020/01/IMG_001.jpg" /\
          target_path r2 = "/data/MobileBackup/2020/01/IMG_001.jpg") as [H1 H2].
  { vm_compute in E. inversion E; subst. by split. }
  apply (H 0%nat 1%nat r1 r2); [lia | done | done | by rewrite H1 | by rewrite H1, H2].
Qed.

(** Strings: lengths and the last separator. *)

Lemma append_cons (c : ascii) (a b : string) :
  String c a +:+ b = String c (a +:+ b).
Proof. reflexivity. Qed.

Lemma length_append (a b : string) :
  String.length (a +:+ b) = (String.length a + String.length b)%nat.
Proof.
  induction a as [| c a IH]; [done |].
  rewrite append_cons. cbn [String.length]. by rewrite IH.
Qed.

Lemma append_empty_r (a : string) : a +:+ "" = a.
Proof. induction a as [| c a IH]; [done |]. by rewrite append_cons, IH. Qed.

Lemma append_inv_head (a b c : string) : a +:+ b = a +:+ c -> b = c.
Proof.
  induction a as [| x a IH]; [done |].
  rewrite !append_cons. intros H. inversion H. auto.
Qed.

Lemma rsplit_Some (c : ascii) (s l r : string) :
  Paths.rsplit c s = Some (l, r) ->
  s = l +:+ String c r /\ Paths.rsplit c r = None.
Proof.
  revert l. induction s as [| a s IH]; intros l; cbn [Paths.rsplit]; [done |].
  destruct (Paths.rsplit c s) as [[l' r'] |] eqn:E.
  - intros H. inversion H; subst. destruct (IH l' eq_refl) as [-> Hr].
    by split.
  - destruct (Ascii.eqb a c) eqn:Ea; [| done].
    apply Ascii.eqb_eq in Ea as ->. intros H. inversion H; subst. by split.
Qed.

Lemma rsplit_append (c : ascii) (l r : string) :
  Paths.rsplit c r = None -> Paths.rsplit c (l +:+ String c r) = Some (l, r).
Proof.
  intros Hr. induction l as [| a l IH].
  - change ("" +:+ String c r) with (String c r).
    cbn [Paths.rsplit]. by rewrite Hr, Ascii.eqb_refl.
  - rewrite append_cons. cbn [Paths.rsplit]. by rewrite IH.
Qed.

Lemma name_no_separator (p : string) : Paths.rsplit "/" (Paths.name p) = None.
Proof.
  unfold Paths.name. destruct (Paths.rsplit "/" p) as [[l r] |] eqn:E; [| done].
  by apply rsplit_Some in E as [_ ?].
Qed.

(** [(d / p.name).name == p.name] *)
Lemma name_joinpath (d p : string) : Paths.name (Paths.joinpath d (Paths.name p)) = Paths.name p.
Proof.
  unfold Paths.joinpath. unfold Paths.name at 1.
  change (d +:+ "/" +:+ Paths.name p) with (d +:+ String "/" (Paths.name p)).
  by rewrite rsplit_append by apply name_no_separator.
Qed.

(** pathlib: [stem + suffix == name] *)
Lemma stem_suffix (p : string) : Paths.stem p +:+ Paths.suffix p = Paths.name p.
Proof.
  unfold Paths.stem, Paths.suffix, Paths.split_ext.
  destruct (Paths.rsplit "." (Paths.name p)) as [[l r] |] eqn:E; cbn [fst snd].
  - destruct (bool_decide (l = "") || bool_decide (r = "")); cbn [fst snd].
    + apply append_empty_r.
    + by apply rsplit_Some in E as [-> _].
  - apply append_empty_r.
Qed.

Lemma stamped_name_length (p : string) (ts : Z) :
  (String.length (Paths.name p) < String.length (stamped_name p ts))%nat.
Proof.
  unfold stamped_name. rewrite <- (stem_suffix p), !length_append. simpl. lia.
Qed.

(** A stamped target differs from the nominal one. *)
Lemma stamped_target_differs (d p : string) (ts : Z) :
  Paths.joinpath d (stamped_name (Paths.joinpath d (Paths.name p)) ts)
  <> Paths.joinpath d (Paths.name p).
Proof.
  unfold Paths.joinpath at 1 3. intros H.
  apply append_inv_head, append_inv_head in H.
  pose proof (stamped_name_length (Paths.joinpath d (Paths.name p)) ts) as Hl.
  rewrite name_joinpath, H in Hl. lia.
Qed.

(** The file tree during planning. *)

Lemma filecmp_dirs_added (fs fs' : FS) (a b : string) :
  dirs_added fs fs' -> filecmp fs' a b = filecmp fs a b.
Proof.
  intros H. unfold filecmp.
  pose proof (H a) as Ha. pose proof (H b) as Hb.
  destruct (fs !! a) as [na |]; [rewrite Ha | destruct Ha as [-> | ->]; [done | done]].
  destruct na; [| done].
  destruct (fs !! b) as [nb |]; [by rewrite Hb | by destruct Hb as [-> | ->]].
Qed.

Lemma target_path_for_cases (cfg : Config) (w : World) (fs : FS) (k : nat) (p : string) :
  let '(tdir, tpath, _) := target_path_for cfg w fs k p in
  tdir = nominal_dir cfg w p /\
  ((path_exists fs (nominal_target cfg w p) && negb (filecmp fs p (nominal_target cfg w p))
    = true /\
    tpath = Paths.joinpath (nominal_dir cfg w p)
              (stamped_name (nominal_target cfg w p) (clock w k)) /\
    tpath <> nominal_target cfg w p)
   \/
   (path_exists fs (nominal_target cfg w p) && negb (filecmp fs p (nominal_target cfg w p))
    = false /\
    tpath = nominal_target cfg w p)).
Proof.
  unfold target_path_for. fold (nominal_dir cfg w p). fold (nominal_target cfg w p).
  destruct (path_exists fs (nominal_target cfg w p)
            && negb (filecmp fs p (nominal_target cfg w p))) eqn:E.
  - split; [done |]. left. split; [done |]. split; [done |].
    apply stamped_target_differs.
  - split; [done |]. by right.
Qed.

Lemma target_path_for_resolved (cfg : Config) (w : World) (fs0 fs : FS) (k : nat)
    (r : PlanRow) :
  dirs_added fs0 fs ->
  target_path_for cfg w fs k (src r)
  = (target_dir r, target_path r, snd (target_path_for cfg w fs k (src r))) ->
  target_resolved cfg w fs0 r.
Proof.
  intros Hadd Heq.
  pose proof (target_path_for_cases cfg w fs k (src r)) as H.
  rewrite Heq in H. destruct H as [Hdir [(Hc & Ht & Hne) | (Hc & Ht)]].
  - split; [done |]. split; [right; by exists k |].
    intros _ _. split; [done | by exists k].
  - split; [done |]. split; [by left |].
    intros He Hf. exfalso.
    rewrite (dirs_added_exists _ _ _ Hadd He) in Hc.
    rewrite (filecmp_dirs_added _ _ _ _ Hadd), Hf in Hc. discriminate.
Qed.

Lemma quarantine_for_dirs_added (cfg : Config) (w : World) (fs : FS) (k : nat)
    (m : string) :
  dirs_added fs (snd (fst (quarantine_for cfg w fs k m))).
Proof.
  unfold quarantine_for. destruct (path_exists _ _); apply mkdir_p_dirs_added.
Qed.

Lemma row_step_resolved (cfg : Config) (w : World) (fs0 : FS)
    (rows : list PlanRow) (fs : FS) (k : nat) (d : Decision) :
  dirs_added fs0 fs ->
  exists row fs' k',
    row_step cfg w (rows, fs, k) d = ((rows ++ [row])%list, fs', k') /\
    dirs_added fs0 fs' /\ target_resolved cfg w fs0 row.
Proof.
  intros Hadd. unfold row_step.
  destruct (target_path_for cfg w fs k (d_src d)) as [[tdir tpath] k1] eqn:Et.
  destruct (d_master d) as [m |].
  - destruct (String.eqb (d_action d) REPLACE_MASTER_WITH_SOURCE).
    + pose proof (quarantine_for_dirs_added cfg w fs k1 m) as Hq.
      destruct (quarantine_for cfg w fs k1 m) as [[q fs'] k'].
      eexists _, _, _. split; [done |].
      split; [by eapply dirs_added_trans |].
      eapply (target_path_for_resolved cfg w fs0 fs k); [done |].
      cbn [src target_dir target_path]. by rewrite Et.
    + eexists _, _, _. split; [done |]. split; [done |].
      eapply (target_path_for_resolved cfg w fs0 fs k); [done |].
      cbn [src target_dir target_path]. by rewrite Et.
  - eexists _, _, _. split; [done |]. split; [done |].
    eapply (target_path_for_resolved cfg w fs0 fs k); [done |].
    cbn [src target_dir target_path]. by rewrite Et.
Qed.

Lemma build_rows_resolved (cfg : Config) (w : World) (fs0 : FS) (pairs : list Decision) :
  forall (rows : list PlanRow) (fs : FS) (k : nat),
    dirs_added fs0 fs ->
    Forall (target_resolved cfg w fs0) rows ->
    Forall (target_resolved cfg w fs0)
      (fst (fst (fold_left (row_step cfg w) pairs (rows, fs, k)))).
Proof.
  induction pairs as [| d pairs IH]; intros rows fs k Hadd Hrows; cbn [fold_left].
  - done.
  - destruct (row_step_resolved cfg w fs0 rows fs k d Hadd)
      as (row & fs' & k' & -> & Hadd' & Hrow).
    apply IH; [done |]. apply Forall_app. split; [done | by constructor].
Qed.

(** C2 (amended).  Target paths are resolved entry by entry against the file
    tree as it is at planning time, not against the other entries of the
    plan (two entries with one nominal path can get the same target path).
    For every entry: the target directory is master root / capture bucket;
    the target path is either the nominal path (that directory / the file's
    name) or the nominal name with [_<timestamp>] before its suffix; and when
    the nominal path is occupied by something that differs from the source
    in size or in its first 1024 bytes, the entry gets the stamped path,
    which is never the occupied nominal path. *)
Theorem target_never_the_occupied_nominal_path (cfg : Config) (w : World) (fs : FS)
    (MASTER_FILES SOURCE_FILES : list string) (groups : list (list string))
    (r : PlanRow) :
  r ∈ plan_rows (make_plan cfg w fs MASTER_FILES SOURCE_FILES groups) ->
  let nominal := nominal_target cfg w (src r) in
  let stamped k :=
    Paths.joinpath (nominal_dir cfg w (src r)) (stamped_name nominal (clock w k)) in
  target_dir r = nominal_dir cfg w (src r) /\
  (target_path r = nominal \/ exists k, target_path r = stamped k) /\
  (path_exists fs nominal = true -> filecmp fs (src r) nominal = false ->
   target_path r <> nominal /\ exists k, target_path r = stamped k).
Proof.
  intros Hr. change (target_resolved cfg w fs r). revert Hr.
  destruct (make_plan_unfold cfg w fs MASTER_FILES SOURCE_FILES groups)
    as (_ & _ & _ & ->).
  unfold build_rows. intros Hr.
  pose proof (build_rows_resolved cfg w fs
                (plan_pairs_exact (make_plan cfg w fs MASTER_FILES SOURCE_FILES groups)
                 ++ plan_pairs_sim (make_plan cfg w fs MASTER_FILES SOURCE_FILES groups))%list
                [] fs 0%nat (dirs_added_refl fs) (Forall_nil_2 _)) as H.
  rewrite Forall_forall in H. by apply H.
Qed.

Lemma target_never_the_occupied_nominal_path_witness :
  exists r,
    r ∈ plan_rows WitnessInputs.taken_plan /\
    src r = TargetExamples.img_a /\
    target_path r <> "/data/MobileBackup/2020/01/IMG_001.jpg".
Proof.
  destruct (plan_rows WitnessInputs.taken_plan) as [| r rest] eqn:E;
    [vm_compute in E; discriminate |].
  assert (src r = TargetExamples.img_a) as Hsrc.
  { vm_compute in E. inversion E. reflexivity. }
  assert (r ∈ plan_rows WitnessInputs.taken_plan) as Hin.
  { rewrite E. apply list_elem_of_here. }
  exists r. split; [by rewrite <- E |]. split; [exact Hsrc |].
  destruct (target_never_the_occupied_nominal_path default_config
              TargetExamples.clash_world TargetExamples.taken_fs
              [] [TargetExamples.img_a] [] r Hin) as (_ & _ & Hocc).
  rewrite Hsrc in Hocc.
  destruct Hocc as [Hne _]; [vm_compute; reflexivity | vm_compute; reflexivity |].
  exact Hne.
Defined.

(** ** [do_apply] never lets an exception of [shutil.move] escape *)

Lemma do_move_exists (from to : string) (st : ApplyState) :
  path_exists (a_fs st) from = true ->
  exists n, a_fs st !! from = Some n /\
    do_move from to st
    = Some {| a_fs := <[to := n]> (delete from (a_fs st));
              a_events := (a_events st ++ [EvMove from to])%list;
              moved := moved st; replaced := replaced st; kept := kept st |}.
Proof.
  intros H. destruct (shutil_move_exists from to _ H) as (n & Hn & Hm).
  exists n. split; [done |]. unfold do_move. by rewrite Hm.
Qed.

Lemma do_mkdir_exists (d p : string) (st : ApplyState) :
  path_exists (a_fs st) p = true -> path_exists (a_fs (do_mkdir d st)) p = true.
Proof. apply dirs_added_exists, mkdir_p_dirs_added. Qed.

Lemma do_move_if_exists (from to : string) (st : ApplyState) :
  (if path_exists (a_fs st) from then do_move from to st else Some st)
  = Some (move_if_exists from to st).
Proof.
  unfold move_if_exists. destruct (path_exists (a_fs st) from) eqn:E.
  - destruct (do_move_exists from to st E) as (n & Hn & ->). by rewrite Hn.
  - unfold path_exists in E. by destruct (a_fs st !! from).
Qed.

Lemma quarantine_move_total (cfg : Config) (m q : string) (st : ApplyState) :
  path_exists (a_fs st) m = true ->
  do_move m q (do_mkdir (QUAR cfg) st)
  = Some (move_if_exists m q (do_mkdir (QUAR cfg) st)).
Proof.
  intros H. rewrite <- do_move_if_exists.
  by rewrite (do_mkdir_exists (QUAR cfg) m st H).
Qed.

(** Every [shutil.move] of [apply_row] is guarded by [exists()], so the row
    always completes, with the state [row_effect] describes. *)
Lemma apply_row_effect (cfg : Config) (st : ApplyState) (row : PlanRow) :
  apply_row cfg st row = Some (row_effect cfg st row).
Proof.
  unfold apply_row, row_effect, is_keep, is_move_source, is_replace, quarantine_step.
  destruct (String.eqb (action row) KEEP_MASTER); [done |].
  destruct (String.eqb (action row) MOVE_SOURCE).
  - destruct (DRY_RUN cfg); cbn [negb andb]; [done |].
    by rewrite do_move_if_exists.
  - destruct (String.eqb (master row) ""); cbn [negb andb].
    + by rewrite andb_false_r.
    + rewrite andb_true_r.
      destruct (String.eqb (action row) REPLACE_MASTER_WITH_SOURCE); [| done].
      destruct (DRY_RUN cfg); cbn [negb]; [done |].
      destruct (String.eqb (quarantine_path row) "").
      * cbn [mbind option_bind]. by rewrite do_move_if_exists.
      * destruct (path_exists (a_fs (do_mkdir (target_dir row) st)) (master row)) eqn:E.
        -- rewrite (quarantine_move_total cfg _ _ _ E). cbn [mbind option_bind].
           by rewrite do_move_if_exists.
        -- cbn [mbind option_bind]. by rewrite do_move_if_exists.
Qed.

Lemma apply_rows_effect (cfg : Config) (rows : list PlanRow) :
  forall st, apply_rows cfg rows st = inr (fold_left (row_effect cfg) rows st).
Proof.
  induction rows as [| row rows IH]; intros st; cbn [apply_rows fold_left]; [done |].
  by rewrite apply_row_effect, IH.
Qed.

(** A run over an existing plan always finishes. *)
Lemma do_apply_finishes (cfg : Config) (rows : list PlanRow) (fs : FS) :
  let st := fold_left (row_effect cfg) rows (initial_state fs) in
  do_apply cfg (Some rows) fs
  = Finished st
      ("APPLY done. moved=" +:+ pretty (moved st)
       +:+ ", replaced=" +:+ pretty (replaced st)
       +:+ ", kept=" +:+ pretty (kept st)).
Proof. unfold do_apply. by rewrite apply_rows_effect. Qed.

(** ** Tallies *)

Lemma keep_excludes (r : PlanRow) :
  is_keep r = true -> is_move_source r = false /\ is_replace r = false.
Proof.
  unfold is_keep, is_move_source, is_replace. intros H.
  apply String.eqb_eq in H. by rewrite H.
Qed.

Lemma move_excludes (r : PlanRow) :
  is_move_source r = true -> is_replace r = false.
Proof.
  unfold is_move_source, is_replace. intros H.
  apply String.eqb_eq in H. by rewrite H.
Qed.

Lemma move_if_exists_tally (from to : string) (st : ApplyState) :
  moved (move_if_exists from to st) = moved st /\
  replaced (move_if_exists from to st) = replaced st /\
  kept (move_if_exists from to st) = kept st.
Proof. unfold move_if_exists. by destruct (a_fs st !! from). Qed.

Lemma quarantine_step_tally (cfg : Config) (row : PlanRow) (st : ApplyState) :
  moved (quarantine_step cfg row st) = moved st /\
  replaced (quarantine_step cfg row st) = replaced st /\
  kept (quarantine_step cfg row st) = kept st.
Proof.
  unfold quarantine_step.
  destruct (String.eqb _ _); [done |].
  destruct (path_exists _ _); [| done].
  destruct (move_if_exists_tally (master row) (quarantine_path row)
              (do_mkdir (QUAR cfg) st)) as (-> & -> & ->).
  done.
Qed.

Lemma row_effect_tally (cfg : Config) (st : ApplyState) (row : PlanRow) :
  moved (row_effect cfg st row) = (moved st + b2n (is_move_source row))%nat /\
  replaced (row_effect cfg st row) = (replaced st + b2n (is_replace row))%nat /\
  kept (row_effect cfg st row) = (kept st + b2n (is_keep row))%nat.
Proof.
  unfold row_effect.
  destruct (is_keep row) eqn:Ek.
  - destruct (keep_excludes row Ek) as [-> ->]. simpl. lia.
  - destruct (is_move_source row) eqn:Em.
    + rewrite (move_excludes row Em).
      destruct (DRY_RUN cfg); cbn [tally_moved moved replaced kept b2n].
      * simpl. lia.
      * destruct (move_if_exists_tally (src row) (target_path row)
                    (do_mkdir (target_dir row) st)) as (-> & -> & ->).
        simpl. lia.
    + destruct (is_replace row) eqn:Er.
      * destruct (DRY_RUN cfg); cbn [tally_replaced moved replaced kept b2n].
        -- simpl. lia.
        -- destruct (move_if_exists_tally (src row) (target_path row)
                       (quarantine_step cfg row (do_mkdir (target_dir row) st)))
             as (-> & -> & ->).
           destruct (quarantine_step_tally cfg row (do_mkdir (target_dir row) st))
             as (-> & -> & ->).
           simpl. lia.
      * simpl. lia.
Qed.

Lemma count_rows_cons (P : PlanRow -> bool) (r : PlanRow) (rows : list PlanRow) :
  count_rows P (r :: rows) = (b2n (P r) + count_rows P rows)%nat.
Proof.
  unfold count_rows. rewrite filter_cons.
  destruct (decide (Is_true (P r))) as [H | H]; destruct (P r); simpl in *;
    done || (exfalso; by apply H).
Qed.

Lemma fold_effect_tally (cfg : Config) (rows : list PlanRow) :
  forall st,
    let st' := fold_left (row_effect cfg) rows st in
    moved st' = (moved st + count_rows is_move_source rows)%nat /\
    replaced st' = (replaced st + count_rows is_replace rows)%nat /\
    kept st' = (kept st + count_rows is_keep rows)%nat.
Proof.
  induction rows as [| row rows IH]; intros st; cbn [fold_left].
  - unfold count_rows. simpl. lia.
  - destruct (IH (row_effect cfg st row)) as (Hm & Hr & Hk).
    destruct (row_effect_tally cfg st row) as (Hm' & Hr' & Hk').
    cbv zeta. rewrite Hm, Hr, Hk, Hm', Hr', Hk', !count_rows_cons. lia.
Qed.


(** ** C9: apply without a plan *)

(** C9. When no plan artifact exists, apply ends at once through
    [sys.exit(2)] with the message ["Plan missing. Run 'plan' first."] on
    stderr: the status is not zero, the file tree is untouched, no call was
    made on it, and no tally is reported. *)
Theorem missing_plan_is_fatal (cfg : Config) (fs : FS) :
  do_apply cfg None fs = SysExit 2 "Plan missing. Run 'plan' first." fs [] /\
  (2 <> 0)%Z /\
  run_fs (do_apply cfg None fs) = fs /\
  run_events (do_apply cfg None fs) = [] /\
  (forall st out, do_apply cfg None fs <> Finished st out).
Proof. repeat split; done. Qed.

(** ** C6: quarantine before the incoming move *)

Lemma replace_excludes (r : PlanRow) :
  is_replace r = true -> is_keep r = false /\ is_move_source r = false.
Proof.
  intros H. split.
  - destruct (is_keep r) eqn:E; [| done].
    destruct (keep_excludes r E) as [_ H']. congruence.
  - destruct (is_move_source r) eqn:E; [| done].
    pose proof (move_excludes r E). congruence.
Qed.

Lemma move_if_exists_events (from to : string) (st : ApplyState) :
  a_events (move_if_exists from to st) = a_events st \/
  a_events (move_if_exists from to st) = (a_events st ++ [EvMove from to])%list.
Proof. unfold move_if_exists. destruct (a_fs st !! from); auto. Qed.



(** ** C3: dry-run *)


Lemma row_effect_dry (cfg : Config) (st : ApplyState) (row : PlanRow) :
  DRY_RUN cfg = true ->
  a_events (row_effect cfg st row)
  = (a_events st ++ if is_keep row then [] else [EvMkdir (target_dir row)])%list /\
  a_fs (row_effect cfg st row)
  = if is_keep row then a_fs st else mkdir_p (target_dir row) (a_fs st).
Proof.
  intros Hdry. unfold row_effect. rewrite Hdry.
  destruct (is_keep row); [by rewrite app_nil_r |].
  destruct (is_move_source row); [done |].
  by destruct (is_replace row).
Qed.

Lemma fold_effect_dry (cfg : Config) (rows : list PlanRow) :
  DRY_RUN cfg = true ->
  forall st,
    let st' := fold_left (row_effect cfg) rows st in
    a_events st'
    = (a_events st ++
       map (fun r => EvMkdir (target_dir r))
           (filter (fun r => is_keep r = false) rows))%list /\
    dirs_added (a_fs st) (a_fs st').
Proof.
  intros Hdry. induction rows as [| row rows IH]; intros st; cbn [fold_left].
  - split; [by rewrite app_nil_r | apply dirs_added_refl].
  - destruct (IH (row_effect cfg st row)) as [Hev Hfs].
    destruct (row_effect_dry cfg st row Hdry) as [Hev' Hfs'].
    cbv zeta. rewrite Hev, Hev', filter_cons. split.
    + destruct (is_keep row); rewrite <- app_assoc.
      * by rewrite decide_False by done.
      * by rewrite decide_True by done.
    + eapply dirs_added_trans; [| exact Hfs]. rewrite Hfs'.
      destruct (is_keep row); [apply dirs_added_refl | apply mkdir_p_dirs_added].
Qed.



(** ** C5: applying a plan twice *)

Lemma footprint_refl (R W : list string) (fs : FS) : footprint R W fs fs.
Proof. by split. Qed.

Lemma footprint_trans (R W : list string) (fs1 fs2 fs3 : FS) :
  footprint R W fs1 fs2 -> footprint R W fs2 fs3 -> footprint R W fs1 fs3.
Proof. intros [A1 B1] [A2 B2]. split; eauto. Qed.

Lemma footprint_mono (R R' W W' : list string) (fs fs' : FS) :
  (forall p, p ∈ R -> p ∈ R') -> (forall p, p ∈ W -> p ∈ W') ->
  footprint R W fs fs' -> footprint R' W' fs fs'.
Proof. intros HR HW [A B]. split; eauto. Qed.

Lemma mkdir_fold_other (ds : list string) (p : string) :
  p ∉ ds -> forall fs, fold_left mkdir_one ds fs !! p = fs !! p.
Proof.
  induction ds as [| d ds IH]; intros Hp fs; cbn [fold_left]; [done |].
  apply not_elem_of_cons in Hp as [Hne Hp]. rewrite IH by done.
  unfold mkdir_one. destruct (path_exists fs d); [done |].
  by rewrite lookup_insert_ne.
Qed.

Lemma mkdir_p_footprint (R : list string) (d : string) (fs : FS) :
  footprint R (Paths.ancestors d ++ [d]) fs (mkdir_p d fs).
Proof.
  split.
  - intros p Hp Hn. unfold mkdir_p. by rewrite mkdir_fold_other.
  - intros p _ [n Hn]. pose proof (mkdir_p_dirs_added d fs p) as H.
    rewrite Hn in H. by exists n.
Qed.

Lemma move_if_exists_footprint (from to : string) (st : ApplyState) :
  footprint [from] [to] (a_fs st) (a_fs (move_if_exists from to st)).
Proof.
  unfold move_if_exists. destruct (a_fs st !! from) as [n |] eqn:E;
    [| apply footprint_refl].
  cbn [a_fs]. split.
  - intros p Hp Hn. apply not_elem_of_cons in Hp as [Hne _].
    rewrite lookup_insert_ne by done.
    destruct (decide (from = p)) as [<- | Hne'].
    + apply lookup_delete_eq.
    + by rewrite lookup_delete_ne.
  - intros p Hp Hs. apply not_elem_of_cons in Hp as [Hne _].
    destruct (decide (to = p)) as [<- | Hne'].
    + rewrite lookup_insert_eq. by eexists.
    + rewrite lookup_insert_ne, lookup_delete_ne by done. done.
Qed.

Lemma move_if_exists_gone (from to : string) (st : ApplyState) :
  from <> to -> a_fs (move_if_exists from to st) !! from = None.
Proof.
  intros Hne. unfold move_if_exists.
  destruct (a_fs st !! from) as [n |] eqn:E; [| done].
  cbn [a_fs]. rewrite lookup_insert_ne by done. apply lookup_delete_eq.
Qed.

Lemma quarantine_step_footprint (cfg : Config) (row : PlanRow) (st : ApplyState) :
  footprint
    (if String.eqb (quarantine_path row) "" then [] else [master row])
    (if String.eqb (quarantine_path row) "" then []
     else Paths.ancestors (QUAR cfg) ++ [QUAR cfg; quarantine_path row])%list
    (a_fs st) (a_fs (quarantine_step cfg row st)).
Proof.
  unfold quarantine_step.
  destruct (String.eqb (quarantine_path row) ""); [apply footprint_refl |].
  destruct (path_exists (a_fs st) (master row)); [| apply footprint_refl].
  apply (footprint_trans _ _ _ (a_fs (do_mkdir (QUAR cfg) st))).
  - eapply footprint_mono; [| | apply (mkdir_p_footprint [master row] (QUAR cfg))].
    + done.
    + intros p. rewrite !elem_of_app, !elem_of_cons. tauto.
  - eapply footprint_mono;
      [| | apply (move_if_exists_footprint (master row) (quarantine_path row))].
    + done.
    + intros p. rewrite !elem_of_app, !elem_of_cons. tauto.
Qed.

Lemma quarantine_step_gone (cfg : Config) (row : PlanRow) (st : ApplyState) :
  String.eqb (quarantine_path row) "" = false ->
  master row <> quarantine_path row ->
  a_fs (quarantine_step cfg row st) !! master row = None.
Proof.
  intros Hq Hne. unfold quarantine_step. rewrite Hq.
  destruct (path_exists (a_fs st) (master row)) eqn:E.
  - by apply move_if_exists_gone.
  - unfold path_exists in E. by destruct (a_fs st !! master row).
Qed.

(** The part of a row after its [mkdir]. *)
Lemma row_effect_after_mkdir (cfg : Config) (st : ApplyState) (row : PlanRow) :
  is_keep row = false ->
  footprint (row_moves_from row) (row_writes cfg row)
    (a_fs (do_mkdir (target_dir row) st)) (a_fs (row_effect cfg st row)).
Proof.
  intros Hk. unfold row_effect, row_moves_from, row_writes, row_mkdirs.
  rewrite Hk.
  destruct (is_move_source row).
  - destruct (DRY_RUN cfg); cbn [tally_moved a_fs]; [apply footprint_refl |].
    eapply footprint_mono; [| | apply move_if_exists_footprint].
    + done.
    + intros p. rewrite !elem_of_app, !elem_of_cons. tauto.
  - destruct (is_replace row); [| apply footprint_refl].
    destruct (DRY_RUN cfg); cbn [tally_replaced a_fs]; [apply footprint_refl |].
    apply (footprint_trans _ _ _
             (a_fs (quarantine_step cfg row (do_mkdir (target_dir row) st)))).
    + eapply footprint_mono; [| | apply quarantine_step_footprint].
      * intros p. rewrite !elem_of_app. tauto.
      * intros p. rewrite !elem_of_app. tauto.
    + eapply footprint_mono; [| | apply move_if_exists_footprint].
      * intros p. rewrite !elem_of_app. tauto.
      * intros p. rewrite !elem_of_app, !elem_of_cons. tauto.
Qed.

Lemma row_effect_footprint (cfg : Config) (st : ApplyState) (row : PlanRow) :
  footprint (row_moves_from row) (row_writes cfg row)
    (a_fs st) (a_fs (row_effect cfg st row)).
Proof.
  destruct (is_keep row) eqn:Hk.
  - unfold row_effect. rewrite Hk. apply footprint_refl.
  - apply (footprint_trans _ _ _ (a_fs (do_mkdir (target_dir row) st)));
      [| by apply row_effect_after_mkdir].
    eapply footprint_mono;
      [| | apply (mkdir_p_footprint (row_moves_from row) (target_dir row))].
    + done.
    + intros p Hp. unfold row_writes, row_mkdirs. rewrite Hk.
      apply elem_of_app. by left.
Qed.

(** In live mode a row leaves nothing at the paths it moves away, when it
    writes none of them. *)
Lemma row_effect_clears (cfg : Config) (st : ApplyState) (row : PlanRow) (p : string) :
  DRY_RUN cfg = false ->
  (forall q, q ∈ row_moves_from row -> q ∉ row_writes cfg row) ->
  p ∈ row_moves_from row ->
  a_fs (row_effect cfg st row) !! p = None.
Proof.
  intros Hlive Hdisj Hp.
  unfold row_moves_from in Hp.
  unfold row_effect.
  destruct (is_keep row) eqn:Hk.
  { destruct (keep_excludes row Hk) as [Hm Hr]. rewrite Hm, Hr in Hp.
    by apply elem_of_nil in Hp. }
  rewrite Hlive.
  destruct (is_move_source row) eqn:Hm.
  - apply list_elem_of_singleton in Hp as ->. cbn [tally_moved a_fs].
    apply move_if_exists_gone. intros Heq.
    apply (Hdisj (src row)).
    + unfold row_moves_from. rewrite Hm. apply list_elem_of_here.
    + unfold row_writes. rewrite Hm. rewrite elem_of_app, list_elem_of_singleton. auto.
  - destruct (is_replace row) eqn:Hr; [| by apply elem_of_nil in Hp].
    cbn [tally_replaced a_fs].
    assert (src row <> target_path row) as Hst.
    { intros Heq. apply (Hdisj (src row)).
      - unfold row_moves_from. rewrite Hm, Hr.
        rewrite elem_of_app, list_elem_of_singleton. auto.
      - unfold row_writes. rewrite Hm, Hr.
        rewrite !elem_of_app, list_elem_of_singleton. auto. }
    apply elem_of_app in Hp as [Hp | Hp].
    + destruct (String.eqb (quarantine_path row) "") eqn:Hq;
        [by apply elem_of_nil in Hp |].
      apply list_elem_of_singleton in Hp as ->.
      assert (master row ∈ row_moves_from row) as Hin.
      { unfold row_moves_from. rewrite Hm, Hr, Hq.
        rewrite elem_of_app, list_elem_of_singleton. auto. }
      pose proof (Hdisj _ Hin) as Hw. unfold row_writes in Hw.
      rewrite Hm, Hr, Hq in Hw.
      rewrite !not_elem_of_app, !not_elem_of_cons in Hw.
      destruct Hw as (_ & (_ & _ & Hmq & _) & Hmt & _).
      destruct (move_if_exists_footprint (src row) (target_path row)
                  (quarantine_step cfg row (do_mkdir (target_dir row) st))) as [A _].
      apply A.
      * rewrite not_elem_of_cons. split; [done | apply not_elem_of_nil].
      * by apply quarantine_step_gone.
    + apply list_elem_of_singleton in Hp as ->.
      by apply move_if_exists_gone.
Qed.

(** A row leaves its directories in place, when it moves none of them away. *)
Lemma row_effect_makes (cfg : Config) (st : ApplyState) (row : PlanRow) (d : string) :
  (forall q, q ∈ row_moves_from row -> q ∉ row_writes cfg row) ->
  d ∈ row_mkdirs row ->
  is_Some (a_fs (row_effect cfg st row) !! d).
Proof.
  intros Hdisj Hd.
  destruct (is_keep row) eqn:Hk.
  { unfold row_mkdirs in Hd. rewrite Hk in Hd. by apply elem_of_nil in Hd. }
  destruct (row_effect_after_mkdir cfg st row Hk) as [_ B]. apply B.
  - intros Hin. apply (Hdisj d Hin). unfold row_writes. apply elem_of_app. by left.
  - unfold row_mkdirs in Hd. rewrite Hk in Hd.
    pose proof (mkdir_fold_made (Paths.ancestors (target_dir row) ++ [target_dir row])
                  (a_fs st)) as Hmade.
    rewrite Forall_forall in Hmade. specialize (Hmade d Hd).
    cbn [do_mkdir a_fs]. unfold mkdir_p. unfold path_exists in Hmade.
    destruct (fold_left mkdir_one _ _ !! d); [by eexists | done].
Qed.

(** On a settled tree a row only repeats its [mkdir], which changes nothing. *)
Lemma row_effect_idle (cfg : Config) (st : ApplyState) (row : PlanRow) :
  (forall p, p ∈ row_moves_from row -> a_fs st !! p = None) ->
  (forall d, d ∈ row_mkdirs row -> is_Some (a_fs st !! d)) ->
  a_fs (row_effect cfg st row) = a_fs st /\
  a_events (row_effect cfg st row)
  = (a_events st ++ if is_keep row then [] else [EvMkdir (target_dir row)])%list.
Proof.
  intros Hgone Hdirs. unfold row_effect.
  destruct (is_keep row) eqn:Hk; [by rewrite app_nil_r |].
  assert (do_mkdir (target_dir row) st
          = {| a_fs := a_fs st;
               a_events := (a_events st ++ [EvMkdir (target_dir row)])%list;
               moved := moved st; replaced := replaced st; kept := kept st |}) as ->.
  { unfold do_mkdir. f_equal. unfold mkdir_p. apply mkdir_fold_id.
    apply Forall_forall. intros d Hd.
    destruct (Hdirs d) as [n Hn].
    - unfold row_mkdirs. by rewrite Hk.
    - unfold path_exists. by rewrite Hn. }
  unfold row_moves_from in Hgone.
  destruct (is_move_source row).
  - destruct (DRY_RUN cfg); [done |].
    unfold move_if_exists. cbn [a_fs].
    by rewrite (Hgone (src row) (list_elem_of_here _ _)).
  - destruct (is_replace row); [| done].
    destruct (DRY_RUN cfg); [done |].
    unfold quarantine_step, path_exists. cbn [a_fs].
    assert (a_fs st !! src row = None) as Hs.
    { apply Hgone. rewrite elem_of_app, list_elem_of_singleton. auto. }
    destruct (String.eqb (quarantine_path row) "").
    + unfold move_if_exists. cbn [a_fs]. by rewrite Hs.
    + rewrite (Hgone (master row)) by (rewrite elem_of_app, list_elem_of_singleton; auto).
      unfold move_if_exists. cbn [a_fs]. by rewrite Hs.
Qed.

Lemma fold_effect_idle (cfg : Config) (rows : list PlanRow) :
  forall st,
    settled rows (a_fs st) ->
    a_fs (fold_left (row_effect cfg) rows st) = a_fs st /\
    a_events (fold_left (row_effect cfg) rows st)
    = (a_events st ++
       map (fun r => EvMkdir (target_dir r))
           (filter (fun r => is_keep r = false) rows))%list.
Proof.
  induction rows as [| row rows IH]; intros st Hset; cbn [fold_left].
  - by rewrite app_nil_r.
  - destruct (Hset row (list_elem_of_here _ _)) as [H1 H2].
    destruct (row_effect_idle cfg st row H1 H2) as [Hfs Hev].
    destruct (IH (row_effect cfg st row)) as [Hfs' Hev'].
    { rewrite Hfs. intros r Hr. apply Hset. by apply list_elem_of_further. }
    rewrite Hfs', Hev', Hfs, Hev, filter_cons. split; [done |].
    destruct (is_keep row); rewrite <- app_assoc.
    + by rewrite decide_False by done.
    + by rewrite decide_True by done.
Qed.


Section Replay.

Variable cfg : Config.
Variable rows : list PlanRow.
Hypothesis Hlive : DRY_RUN cfg = false.
Hypothesis Hrep : replayable cfg rows.

(** The first live run settles the tree. *)
Lemma first_run_settles :
  forall done todo st,
    rows = (done ++ todo)%list ->
    settled done (a_fs st) ->
    settled rows (a_fs (fold_left (row_effect cfg) todo st)).
Proof.
  intros done todo. revert done.
  induction todo as [| row todo IH]; intros done st Hrows Hset; cbn [fold_left].
  - by rewrite Hrows, app_nil_r.
  - apply (IH (done ++ [row])%list); [by rewrite <- app_assoc |].
    assert (row ∈ rows) as Hrow.
    { rewrite Hrows, elem_of_app, elem_of_cons. auto. }
    assert (forall r, r ∈ done -> r ∈ rows) as Hdone.
    { intros r Hr. rewrite Hrows, elem_of_app. auto. }
    destruct (row_effect_footprint cfg st row) as [A B].
    intros r Hr. apply elem_of_app in Hr as [Hr | Hr].
    + destruct (Hset r Hr) as [H1 H2]. split.
      * intros p Hp. apply A; [| by apply H1].
        by apply (Hrep r row p (Hdone r Hr) Hrow).
      * intros d Hd. apply B; [| by apply H2].
        intros Hin. apply (Hrep row r d Hrow (Hdone r Hr) Hin).
        unfold row_writes. apply elem_of_app. by left.
    + apply list_elem_of_singleton in Hr as ->. split.
      * intros p Hp. apply row_effect_clears; auto.
        intros q Hq. by apply (Hrep row row q).
      * intros d Hd. apply row_effect_makes; auto.
        intros q Hq. by apply (Hrep row row q).
Qed.


End Replay.


(** * Further properties of the code *)

(** ** Quality scorer *)

Lemma index_of_spec (t : string) (l : list string) :
  match index_of t l with
  | Some i => l !! i = Some t /\ forall j, (j < i)%nat -> l !! j <> Some t
  | None => t ∉ l
  end.
Proof.
  induction l as [| x l IH]; cbn [index_of].
  - apply not_elem_of_nil.
  - destruct (String.eqb x t) eqn:E.
    + apply String.eqb_eq in E as ->. split; [done |]. intros j Hj. lia.
    + apply String.eqb_neq in E. destruct (index_of t l) as [i |]; cbn [fmap option_fmap option_map].
      * destruct IH as [Hi Hlt]. split; [done |].
        intros [| j] Hj; cbn; [congruence | apply Hlt; lia].
      * rewrite not_elem_of_cons. split; [congruence | done].
Qed.

(** X1. The type rank of a file is the position of the first occurrence of
    its category in the preference order, and the length of the order when
    the category is not listed: unlisted categories rank after every listed
    one.  The category is one of raw, heic, jpeg, png, other. *)
Theorem file_type_rank_position (cfg : Config) (p : string) :
  let t := type_category (file_ext p) in
  let r := file_type_rank cfg p in
  t ∈ ["raw"; "heic"; "jpeg"; "png"; "other"] /\
  (0 <= r <= Z.of_nat (List.length (QUALITY_ORDER cfg)))%Z /\
  (t ∈ QUALITY_ORDER cfg ->
   QUALITY_ORDER cfg !! Z.to_nat r = Some t /\
   forall j, (j < Z.to_nat r)%nat -> QUALITY_ORDER cfg !! j <> Some t) /\
  (t ∉ QUALITY_ORDER cfg -> r = Z.of_nat (List.length (QUALITY_ORDER cfg))).
Proof.
  cbv zeta. unfold file_type_rank. fold (file_ext p).
  pose proof (index_of_spec (type_category (file_ext p)) (QUALITY_ORDER cfg)) as H.
  split.
  { unfold type_category.
    repeat (destruct (existsb _ _); [rewrite !elem_of_cons; auto 10 |]).
    rewrite !elem_of_cons. auto 10. }
  destruct (index_of _ _) as [i |].
  - destruct H as [Hi Hlt]. split; [| split].
    + apply lookup_lt_Some in Hi. lia.
    + intros _. rewrite Nat2Z.id. by split.
    + intros Hn. exfalso. apply Hn. by eapply list_elem_of_lookup_2.
  - split; [lia |]. split; [intros Hin; contradiction | done].
Qed.

Lemma file_score_lt_outranks (cfg : Config) (w : World) (a b : string) :
  lex_lt (file_score cfg w a) (file_score cfg w b) <-> outranks cfg w a b.
Proof.
  unfold file_score, outranks, pixels, lex_lt.
  destruct (resolution w a) as [[pa wa] ha], (resolution w b) as [[pb wb] hb].
  cbn [fst].
  destruct (has_exif_datetime w a), (has_exif_datetime w b); cbn [negb];
    split; intros H;
    repeat match goal with
           | H : _ \/ _ |- _ => destruct H
           | H : _ /\ _ |- _ => destruct H
           end; try discriminate; try lia;
    try (left; lia);
    try (right; split; [lia |]; left; lia);
    try (right; split; [lia |]; right; split; [lia |]; left; (lia || done));
    try (right; split; [lia |]; right; split; [lia |]; right; (lia || (split; [done | lia]))).
Qed.

Lemma better_priority_order_aux (cfg : Config) (w : World) (a b : string) :
  (better cfg w a b = a <-> outranks cfg w a b \/ a = b) /\
  (better cfg w a b = a \/ better cfg w a b = b).
Proof.
  unfold better. rewrite <- file_score_lt_outranks, <- score_lt_spec.
  destruct (score_lt (file_score cfg w a) (file_score cfg w b)).
  - split; [| by left]. split; auto.
  - split; [| by right]. split.
    + intros ->. by right.
    + intros [H | ->]; [discriminate | done].
Qed.

(** X2. [better(a, b)] is [a] exactly when [a] outranks [b] on the first
    attribute that tells them apart, in this order: preferred type, more
    pixels (an unreadable image counts 0), capture metadata present, more
    bytes; or when [a] and [b] are the same path.  In every other case it is
    [b]. *)
Theorem better_priority_order (cfg : Config) (w : World) (a b : string) :
  (better cfg w a b = a <-> outranks cfg w a b \/ a = b) /\
  (better cfg w a b = a \/ better cfg w a b = b).
Proof. apply better_priority_order_aux. Qed.

(** ** Exact-duplicate resolver *)

Lemma fold_worst_greatest (cfg : Config) (w : World) (ms : list string) :
  forall m0,
    let wm := worst_master cfg w m0 ms in
    wm ∈ m0 :: ms /\
    forall m, m ∈ m0 :: ms -> lex_le (file_score cfg w m) (file_score cfg w wm).
Proof.
  unfold worst_master.
  induction ms as [| m ms IH]; intros m0; cbn [fold_left].
  - split; [apply list_elem_of_here |].
    intros m Hm. apply list_elem_of_singleton in Hm as ->. by right.
  - set (step := if score_lt (file_score cfg w m0) (file_score cfg w m) then m else m0).
    destruct (IH step) as [Hin Hle].
    assert (step ∈ [m0; m] /\
            lex_le (file_score cfg w m0) (file_score cfg w step) /\
            lex_le (file_score cfg w m) (file_score cfg w step)) as (Hs & H0 & H1).
    { unfold step.
      destruct (score_lt (file_score cfg w m0) (file_score cfg w m)) eqn:E.
      - apply score_lt_spec in E. rewrite !elem_of_cons.
        split; [auto |]. split; [by left | by right].
      - apply score_lt_false in E. rewrite !elem_of_cons.
        split; [auto |]. split; [by right | done]. }
    split.
    + apply elem_of_cons in Hin as [Hin | Hin].
      * rewrite Hin. rewrite !elem_of_cons in Hs |- *.
        destruct Hs as [? | [? | Hn]]; auto. by apply elem_of_nil in Hn.
      * rewrite !elem_of_cons. auto.
    + intros x Hx. apply elem_of_cons in Hx as [-> | Hx].
      * eapply lex_le_trans; [exact H0 |]. apply Hle, list_elem_of_here.
      * apply elem_of_cons in Hx as [-> | Hx].
        -- eapply lex_le_trans; [exact H1 |]. apply Hle, list_elem_of_here.
        -- by apply Hle, list_elem_of_further.
Qed.

(** X3. Over a non-empty list of master members, the candidate that the
    loop of [better] ends on is a candidate (a master member or the source)
    that no candidate outscores, and the replacement target [worst_m] is a
    master member whose score no master member exceeds. *)
Theorem best_and_worst_are_extremal (cfg : Config) (w : World)
    (m0 : string) (ms : list string) (s : string) :
  let best := best_candidate cfg w m0 ms s in
  let worst := worst_master cfg w m0 ms in
  (best ∈ m0 :: ms \/ best = s) /\
  (forall c, c ∈ m0 :: ms \/ c = s ->
     lex_le (file_score cfg w best) (file_score cfg w c)) /\
  worst ∈ m0 :: ms /\
  (forall m, m ∈ m0 :: ms -> lex_le (file_score cfg w m) (file_score cfg w worst)).
Proof.
  cbv zeta.
  destruct (fold_better_least cfg w (ms ++ [s]) m0) as [Hin Hle].
  destruct (fold_worst_greatest cfg w ms m0) as [Hwin Hwle].
  fold (best_candidate cfg w m0 ms s) in Hin, Hle.
  split; [| split; [| by split]].
  - rewrite app_comm_cons, elem_of_app, list_elem_of_singleton in Hin. done.
  - intros c Hc. apply Hle.
    rewrite app_comm_cons, elem_of_app, list_elem_of_singleton. done.
Qed.

Lemma exact_decision_facts (cfg : Config) (w : World)
    (m0 : string) (ms : list string) (s : string) :
  let d := exact_decision cfg w m0 ms s in
  d_src d = s /\
  exists m,
    d_master d = Some m /\ m ∈ m0 :: ms /\
    ((d_action d = KEEP_MASTER /\ d_reason d = "exact_dup_master_better" /\
      lex_lt (file_score cfg w m) (file_score cfg w s) /\
      forall m', m' ∈ m0 :: ms -> lex_le (file_score cfg w m) (file_score cfg w m'))
     \/
     (d_action d = REPLACE_MASTER_WITH_SOURCE /\ d_reason d = "exact_dup_better_source" /\
      forall m', m' ∈ m0 :: ms ->
        lex_le (file_score cfg w s) (file_score cfg w m') /\
        lex_le (file_score cfg w m') (file_score cfg w m))).
Proof.
  cbv zeta. unfold exact_decision, best_candidate.
  rewrite fold_left_app. cbn [fold_left].
  destruct (fold_better_least cfg w ms m0) as [Hin Hle].
  destruct (fold_worst_greatest cfg w ms m0) as [Hwin Hwle].
  set (bm := fold_left (better cfg w) ms m0) in *.
  assert (forall m', m' ∈ m0 :: ms ->
            lex_le (file_score cfg w s) (file_score cfg w bm) ->
            lex_le (file_score cfg w s) (file_score cfg w m') /\
            lex_le (file_score cfg w m')
              (file_score cfg w (worst_master cfg w m0 ms))) as Hrep.
  { intros m' Hm' Hs. split; [| by apply Hwle].
    eapply lex_le_trans; [exact Hs | by apply Hle]. }
  destruct (better_cases cfg w bm s) as [[E L] | [E L]]; rewrite E.
  - destruct (String.eqb bm s) eqn:Eq.
    + apply String.eqb_eq in Eq. rewrite Eq in L. by apply lex_lt_irrefl in L.
    + cbn. split; [done |]. exists bm. split; [done |]. split; [done |].
      left. auto.
  - rewrite String.eqb_refl. cbn. split; [done |].
    exists (worst_master cfg w m0 ms). split; [done |]. split; [done |].
    right. split; [done |]. split; [done |]. intros m' Hm'. by apply Hrep.
Qed.

Lemma group_decisions_inv (cfg : Config) (w : World) (g : list string) (d : Decision) :
  d ∈ group_decisions cfg w g ->
  exists m0 ms s,
    members_under (MASTER cfg) g = m0 :: ms /\
    s ∈ members_under (SOURCE cfg) g /\
    d = exact_decision cfg w m0 ms s.
Proof.
  unfold group_decisions.
  destruct (members_under (MASTER cfg) g) as [| m0 ms]; intros Hd.
  - by apply elem_of_nil in Hd.
  - apply list_elem_of_In, in_map_iff in Hd as (s & <- & Hs).
    exists m0, ms, s. split; [done |]. split; [by apply list_elem_of_In | done].
Qed.

(** X4. Every exact-duplicate decision pairs a source-side member of a
    group with a master-side member of the same group.  A KEEP_MASTER
    decision names a master member that scores strictly lower (better) than
    the source and that no master member of the group outscores; a
    REPLACE_MASTER_WITH_SOURCE decision is taken only when no master member
    scores strictly lower than the source, and names a master member of
    greatest (worst) score. *)
Theorem exact_decision_pairs_group_members (cfg : Config) (w : World)
    (groups : list (list string)) (d : Decision) :
  d ∈ fst (exact_phase cfg w groups) ->
  exists g m,
    g ∈ groups /\
    d_src d ∈ members_under (SOURCE cfg) g /\
    d_master d = Some m /\
    m ∈ members_under (MASTER cfg) g /\
    ((d_action d = KEEP_MASTER /\ d_reason d = "exact_dup_master_better" /\
      lex_lt (file_score cfg w m) (file_score cfg w (d_src d)) /\
      forall m', m' ∈ members_under (MASTER cfg) g ->
        lex_le (file_score cfg w m) (file_score cfg w m'))
     \/
     (d_action d = REPLACE_MASTER_WITH_SOURCE /\ d_reason d = "exact_dup_better_source" /\
      forall m', m' ∈ members_under (MASTER cfg) g ->
        lex_le (file_score cfg w (d_src d)) (file_score cfg w m') /\
        lex_le (file_score cfg w m') (file_score cfg w m))).
Proof.
  rewrite exact_phase_eq. cbn [fst]. intros Hd.
  apply list_elem_of_In, in_concat in Hd as (ds & Hds & Hd).
  apply in_map_iff in Hds as (g & <- & Hg).
  apply list_elem_of_In, group_decisions_inv in Hd as (m0 & ms & s & Hm & Hs & ->).
  destruct (exact_decision_facts cfg w m0 ms s) as (Hsrc & m & Hmaster & Hin & Hcase).
  exists g, m. rewrite Hsrc, Hm.
  split; [by apply list_elem_of_In |]. by repeat split.
Qed.

Lemma exact_decision_pairs_group_members_witness :
  exists d g m,
    d ∈ fst (exact_phase default_config Examples.vacation_world
               [[Examples.vacation_master; Examples.vacation_source]]) /\
    d_src d ∈ members_under (SOURCE default_config) g /\
    d_master d = Some m /\ m ∈ members_under (MASTER default_config) g.
Proof.
  set (d := {| d_src := Examples.vacation_source;
               d_master := Some Examples.vacation_master;
               d_action := REPLACE_MASTER_WITH_SOURCE;
               d_reason := "exact_dup_better_source" |}).
  assert (d ∈ fst (exact_phase default_config Examples.vacation_world
                     [[Examples.vacation_master; Examples.vacation_source]])) as Hd.
  { vm_compute. apply list_elem_of_here. }
  destruct (exact_decision_pairs_group_members default_config Examples.vacation_world
              _ d Hd) as (g & m & _ & Hs & Hm & Hin & _).
  exists d, g, m. by repeat split.
Defined.

(** ** Near-duplicate resolver *)

Lemma present_distances_elem (sh : N) (master_hash : list (string * option N))
    (m : string) (dist : Z) :
  (m, dist) ∈ present_distances sh master_hash ->
  exists mh, (m, Some mh) ∈ master_hash /\ dist = hamming sh mh.
Proof.
  unfold present_distances. intros H.
  apply list_elem_of_omap in H as ([m' [mh |]] & Hin & Heq); cbn in Heq; [| done].
  inversion Heq; subst. by exists mh.
Qed.

(** What the body of the near-duplicate loop decides. *)
Lemma near_decision_facts (cfg : Config) (w : World)
    (master_hash : list (string * option N)) (s : string) (v : option N) :
  let d := near_decision cfg w master_hash (s, v) in
  match d_master d with
  | Some m =>
      exists sh mh,
        v = Some sh /\ (m, Some mh) ∈ master_hash /\
        (0 <= hamming sh mh <= PHASH_THRESHOLD cfg)%Z /\
        ((d_action d = REPLACE_MASTER_WITH_SOURCE /\
          d_reason d = "phash_dup_d" +:+ pretty (hamming sh mh) +:+ "_better_source" /\
          (outranks cfg w s m \/ s = m))
         \/
         (d_action d = KEEP_MASTER /\
          d_reason d = "phash_dup_d" +:+ pretty (hamming sh mh) +:+ "_master_better" /\
          ~ (outranks cfg w s m \/ s = m)))
  | None => d_action d = MOVE_SOURCE
  end.
Proof.
  cbv zeta. unfold near_decision. cbn [fst snd].
  destruct v as [sh |]; [| done].
  pose proof (nearest_master_first_least sh master_hash) as Hfl.
  destruct (nearest_master sh master_hash) as [best_d [m |]]; [| done].
  cbn [first_least] in Hfl. destruct Hfl as (l1 & l2 & Hsplit & _ & _).
  assert ((m, best_d) ∈ present_distances sh master_hash) as Hin.
  { rewrite Hsplit, elem_of_app, elem_of_cons. auto. }
  apply present_distances_elem in Hin as (mh & Hmh & ->).
  pose proof (hamming_range sh mh) as Hr.
  destruct (hamming sh mh <=? PHASH_THRESHOLD cfg)%Z eqn:E; [| done].
  apply Z.leb_le in E.
  destruct (better_priority_order_aux cfg w s m) as [Hiff _].
  destruct (String.eqb (better cfg w s m) s) eqn:Eb; cbn [d_master].
  - apply String.eqb_eq in Eb. exists sh, mh.
    split; [done |]. split; [done |]. split; [lia |]. left.
    split; [done |]. split; [done |]. by apply Hiff.
  - apply String.eqb_neq in Eb. exists sh, mh.
    split; [done |]. split; [done |]. split; [lia |]. right.
    split; [done |]. split; [done |]. intros H. by apply Eb, Hiff.
Qed.

Lemma pairs_sim_inv (cfg : Config) (w : World) (fs : FS)
    (MASTER_FILES SOURCE_FILES : list string) (groups : list (list string))
    (d : Decision) :
  d ∈ plan_pairs_sim (make_plan cfg w fs MASTER_FILES SOURCE_FILES groups) ->
  exists s,
    s ∈ SOURCE_FILES /\ (s ∉ snd (exact_phase cfg w groups)) /\
    d = near_decision cfg w (collect_by_phash w MASTER_FILES) (s, phash w s).
Proof.
  destruct (make_plan_unfold cfg w fs MASTER_FILES SOURCE_FILES groups)
    as (_ & Hdups & -> & _).
  rewrite Hdups. unfold near_phase. intros Hd.
  apply list_elem_of_In, in_map_iff in Hd as ([s v] & <- & Hin).
  destruct (collect_by_phash_spec w
              (remaining_sources SOURCE_FILES
                 (list_to_set (map d_src (List.concat (map (group_decisions cfg w) groups))))))
    as (_ & Hval & Hmem).
  rewrite Forall_forall in Hval. apply list_elem_of_In in Hin.
  pose proof (Hval _ Hin) as Hv. cbn in Hv. subst v.
  assert (s ∈ map fst (collect_by_phash w
            (remaining_sources SOURCE_FILES
               (list_to_set (map d_src (List.concat (map (group_decisions cfg w) groups)))))))
    as Hk.
  { apply list_elem_of_In, in_map_iff. exists (s, phash w s).
    split; [done | by apply list_elem_of_In]. }
  apply Hmem, list_elem_of_filter in Hk as [Hnot Hs].
  by exists s.
Qed.

Lemma master_hash_elem (w : World) (MASTER_FILES : list string) (m : string) (mh : N) :
  (m, Some mh) ∈ collect_by_phash w MASTER_FILES ->
  m ∈ MASTER_FILES /\ phash w m = Some mh.
Proof.
  intros Hin.
  destruct (collect_by_phash_spec w MASTER_FILES) as (_ & Hval & Hmem).
  rewrite Forall_forall in Hval. pose proof (Hval _ Hin) as Hv. cbn in Hv.
  split; [| done]. apply Hmem. apply list_elem_of_In, in_map_iff.
  exists (m, Some mh). split; [done | by apply list_elem_of_In].
Qed.

(** X5. A near-duplicate decision that names a master names an enumerated
    master file whose hash is present, for an enumerated source file whose
    hash is present, and the Hamming distance of the two hashes lies between
    0 and the threshold; that distance is the one written into the reason.
    The action is REPLACE_MASTER_WITH_SOURCE only when the source outranks
    the master (or is the same path); on equal scores it is KEEP_MASTER. *)
Theorem near_match_is_within_threshold (cfg : Config) (w : World) (fs : FS)
    (MASTER_FILES SOURCE_FILES : list string) (groups : list (list string))
    (d : Decision) (m : string) :
  d ∈ plan_pairs_sim (make_plan cfg w fs MASTER_FILES SOURCE_FILES groups) ->
  d_master d = Some m ->
  d_src d ∈ SOURCE_FILES /\ m ∈ MASTER_FILES /\
  exists sh mh,
    phash w (d_src d) = Some sh /\ phash w m = Some mh /\
    (0 <= hamming sh mh <= PHASH_THRESHOLD cfg)%Z /\
    ((d_action d = REPLACE_MASTER_WITH_SOURCE /\
      d_reason d = "phash_dup_d" +:+ pretty (hamming sh mh) +:+ "_better_source" /\
      (outranks cfg w (d_src d) m \/ d_src d = m))
     \/
     (d_action d = KEEP_MASTER /\
      d_reason d = "phash_dup_d" +:+ pretty (hamming sh mh) +:+ "_master_better" /\
      ~ (outranks cfg w (d_src d) m \/ d_src d = m))).
Proof.
  intros Hd Hm.
  apply pairs_sim_inv in Hd as (s & Hs & _ & ->).
  pose proof (near_decision_facts cfg w (collect_by_phash w MASTER_FILES) s (phash w s))
    as H.
  cbv zeta in H. rewrite near_decision_src in *. cbn [fst] in *.
  rewrite Hm in H. destruct H as (sh & mh & Hsh & Hin & Hr & Hcase).
  apply master_hash_elem in Hin as [Hmf Hmh].
  split; [done |]. split; [done |]. by exists sh, mh.
Qed.

Lemma near_match_is_within_threshold_witness :
  exists d m,
    d ∈ plan_pairs_sim WitnessInputs.ungrouped_plan /\
    d_master d = Some m /\ m ∈ [Examples.vacation_master].
Proof.
  set (d := {| d_src := Examples.vacation_source;
               d_master := Some Examples.vacation_master;
               d_action := KEEP_MASTER;
               d_reason := "phash_dup_d0_master_better" |}).
  assert (d ∈ plan_pairs_sim WitnessInputs.ungrouped_plan) as Hd.
  { vm_compute. apply list_elem_of_here. }
  destruct (near_match_is_within_threshold default_config Examples.vacation_world
              Examples.vacation_fs [Examples.vacation_master]
              [Examples.vacation_source] [] d Examples.vacation_master Hd eq_refl)
    as (_ & Hm & _).
  exists d, Examples.vacation_master. by repeat split.
Defined.

(** X6. With a negative threshold, or when no enumerated master file has a
    present hash (an empty or unreadable master archive), the near-duplicate
    phase matches nothing: every one of its decisions is MOVE_SOURCE without
    a master. *)
Theorem nothing_to_match_moves_every_source (cfg : Config) (w : World) (fs : FS)
    (MASTER_FILES SOURCE_FILES : list string) (groups : list (list string))
    (d : Decision) :
  (PHASH_THRESHOLD cfg < 0)%Z \/ (forall m, m ∈ MASTER_FILES -> phash w m = None) ->
  d ∈ plan_pairs_sim (make_plan cfg w fs MASTER_FILES SOURCE_FILES groups) ->
  d_action d = MOVE_SOURCE /\ d_master d = None.
Proof.
  intros Hedge Hd.
  apply pairs_sim_inv in Hd as (s & Hs & _ & ->).
  pose proof (near_decision_facts cfg w (collect_by_phash w MASTER_FILES) s (phash w s))
    as H.
  cbv zeta in H.
  destruct (d_master (near_decision cfg w (collect_by_phash w MASTER_FILES) (s, phash w s)))
    as [m |]; [| done].
  exfalso. destruct H as (sh & mh & _ & Hin & Hr & _).
  destruct Hedge as [Hneg | Hnone]; [lia |].
  apply master_hash_elem in Hin as [Hmf Hmh].
  rewrite (Hnone m Hmf) in Hmh. discriminate.
Qed.

Lemma nothing_to_match_moves_every_source_witness :
  exists d,
    d ∈ plan_pairs_sim
          (make_plan default_config Examples.vacation_world Examples.vacation_fs
             [] [Examples.vacation_source] []) /\
    d_action d = MOVE_SOURCE /\ d_master d = None.
Proof.
  set (d := {| d_src := Examples.vacation_source; d_master := None;
               d_action := MOVE_SOURCE; d_reason := "unique_vs_master" |}).
  assert (d ∈ plan_pairs_sim
            (make_plan default_config Examples.vacation_world Examples.vacation_fs
               [] [Examples.vacation_source] [])) as Hd.
  { vm_compute. apply list_elem_of_here. }
  exists d. split; [exact Hd |].
  apply (nothing_to_match_moves_every_source default_config Examples.vacation_world
           Examples.vacation_fs [] [Examples.vacation_source] [] d); [| exact Hd].
  right. intros m Hm. by apply elem_of_nil in Hm.
Defined.

(** ** Hash tables *)

Lemma dict_set_fresh {V : Type} (d : list (string * V)) (k : string) (v : V) :
  k ∉ map fst d -> dict_set d k v = (d ++ [(k, v)])%list.
Proof.
  induction d as [| [k' v'] d IH]; cbn [dict_set map fst app]; [done |].
  intros Hk. apply not_elem_of_cons in Hk as [Hne Hk].
  assert (String.eqb k' k = false) as -> by (apply String.eqb_neq; congruence).
  by rewrite IH.
Qed.

Lemma collect_fresh (w : World) (paths : list string) :
  forall out : list (string * option N),
    NoDup (map fst out ++ paths) ->
    fold_left (fun out p => dict_set out p (phash w p)) paths out
    = (out ++ map (fun p => (p, phash w p)) paths)%list.
Proof.
  induction paths as [| p paths IH]; intros out Hnd; cbn [fold_left map].
  - by rewrite app_nil_r.
  - apply NoDup_app in Hnd as (Ho & Hdisj & Hp).
    apply NoDup_cons in Hp as [Hp Hps].
    rewrite dict_set_fresh, IH.
    + by rewrite <- app_assoc.
    + rewrite map_app. cbn [map fst]. apply NoDup_app. split; [| split; [| done]].
      * apply NoDup_app. split; [done |]. split; [| apply NoDup_singleton].
        intros x Hx Hx'. apply list_elem_of_singleton in Hx' as ->.
        apply (Hdisj p Hx), list_elem_of_here.
      * intros x Hx Hx'. apply elem_of_app in Hx as [Hx | Hx].
        -- apply (Hdisj x Hx). by apply list_elem_of_further.
        -- apply list_elem_of_singleton in Hx as ->. contradiction.
    + intros Hin. apply (Hdisj p Hin), list_elem_of_here.
Qed.

(** X7. The hash table built by [collect_by_phash] holds every path of the
    list, once, bound to its hash, and no other key; for a list without
    repetitions it lists the paths in their order, so the scans over it
    follow the enumeration order of the catalog. *)
Theorem collect_by_phash_table (w : World) (paths : list string) :
  NoDup (map fst (collect_by_phash w paths)) /\
  (forall p v, (p, v) ∈ collect_by_phash w paths <-> p ∈ paths /\ v = phash w p) /\
  (NoDup paths ->
   collect_by_phash w paths = map (fun p => (p, phash w p)) paths).
Proof.
  destruct (collect_by_phash_spec w paths) as (Hnd & Hval & Hmem).
  split; [done |]. split.
  - intros p v. split.
    + intros Hin. rewrite Forall_forall in Hval.
      pose proof (Hval _ Hin) as Hv. cbn in Hv. split; [| done].
      apply Hmem, list_elem_of_In, in_map_iff. exists (p, v).
      split; [done | by apply list_elem_of_In].
    + intros [Hp ->]. apply Hmem, list_elem_of_In, in_map_iff in Hp as ([k v] & Hk & Hin).
      cbn in Hk. subst k. apply list_elem_of_In in Hin.
      rewrite Forall_forall in Hval. pose proof (Hval _ Hin) as Hv. cbn in Hv.
      by subst v.
  - intros Hp. unfold collect_by_phash. by rewrite collect_fresh.
Qed.

(** ** Plan builder *)

(** A property of rows that each turn of the row loop establishes, with an
    invariant of the file tree, holds of every row built. *)
Lemma build_rows_Forall (cfg : Config) (w : World)
    (P : PlanRow -> Prop) (I : FS -> Prop) (pairs : list Decision) :
  (forall rows fs k d, d ∈ pairs -> I fs ->
     exists row fs' k',
       row_step cfg w (rows, fs, k) d = ((rows ++ [row])%list, fs', k') /\
       I fs' /\ P row) ->
  forall rows fs k,
    I fs -> Forall P rows ->
    Forall P (fst (fst (fold_left (row_step cfg w) pairs (rows, fs, k)))) /\
    I (snd (fst (fold_left (row_step cfg w) pairs (rows, fs, k)))).
Proof.
  induction pairs as [| d pairs IH]; intros Hstep rows fs k HI Hrows; cbn [fold_left].
  - done.
  - destruct (Hstep rows fs k d (list_elem_of_here _ _) HI)
      as (row & fs' & k' & -> & HI' & Hrow).
    apply IH; [| done |].
    + intros rows0 fs0 k0 d0 Hd0. apply Hstep. by apply list_elem_of_further.
    + apply Forall_app. split; [done | by constructor].
Qed.

Lemma planner_replace_has_master (cfg : Config) (w : World) (fs : FS)
    (MASTER_FILES SOURCE_FILES : list string) (groups : list (list string))
    (d : Decision) :
  let out := make_plan cfg w fs MASTER_FILES SOURCE_FILES groups in
  d ∈ (plan_pairs_exact out ++ plan_pairs_sim out)%list ->
  replace_has_master d.
Proof.
  cbv zeta. intros Hd. apply elem_of_app in Hd as [Hd | Hd].
  - destruct (make_plan_unfold cfg w fs MASTER_FILES SOURCE_FILES groups)
      as (Hpe & _).
    rewrite Hpe in Hd.
    apply list_elem_of_In, in_concat in Hd as (ds & Hds & Hd).
    apply in_map_iff in Hds as (g & <- & Hg).
    apply list_elem_of_In, group_decisions_inv in Hd as (m0 & ms & s & _ & _ & ->).
    destruct (exact_decision_facts cfg w m0 ms s) as (_ & m & Hm & _).
    intros _. by exists m.
  - apply pairs_sim_inv in Hd as (s & _ & _ & ->).
    pose proof (near_decision_facts cfg w (collect_by_phash w MASTER_FILES) s (phash w s))
      as H.
    cbv zeta in H. intros Hact.
    destruct (d_master _) as [m |]; [by exists m |].
    rewrite H in Hact. discriminate.
Qed.

(** X8. The plan has one row per decision: the exact-duplicate decisions
    first, then the near-duplicate decisions, each resolver's order kept,
    with the decision's action, source, master (empty text for none) and
    reason in the row; the count that the report gives as planned is the
    number of rows. *)
Theorem plan_rows_in_decision_order (cfg : Config) (w : World) (fs : FS)
    (MASTER_FILES SOURCE_FILES : list string) (groups : list (list string)) :
  let out := make_plan cfg w fs MASTER_FILES SOURCE_FILES groups in
  map row_columns (plan_rows out)
  = map decision_columns (plan_pairs_exact out ++ plan_pairs_sim out)%list /\
  report_planned out = List.length (plan_rows out) /\
  report_source_total out = List.length SOURCE_FILES.
Proof.
  cbv zeta.
  pose proof (plan_rows_follow_decisions cfg w fs MASTER_FILES SOURCE_FILES groups) as H.
  cbv zeta in H. split; [exact H |]. split.
  - apply (f_equal (@List.length _)) in H. rewrite !length_map in H.
    rewrite H. unfold make_plan.
    destruct (exact_phase cfg w groups) as [pe ds].
    by destruct (build_rows cfg w fs _) as [[rows fs'] k].
  - unfold make_plan.
    destruct (exact_phase cfg w groups) as [pe ds].
    by destruct (build_rows cfg w fs _) as [[rows fs'] k].
Qed.

Lemma joinpath_nonempty (d n : string) : Paths.joinpath d n <> "".
Proof. unfold Paths.joinpath. by destruct d. Qed.

Lemma mkdir_p_idempotent (d : string) (fs : FS) :
  mkdir_p d (mkdir_p d fs) = mkdir_p d fs.
Proof. unfold mkdir_p. apply mkdir_fold_id, mkdir_fold_made. Qed.

Lemma row_step_quarantine (cfg : Config) (w : World)
    (rows : list PlanRow) (fs : FS) (k : nat) (d : Decision) :
  replace_has_master d ->
  exists row fs' k',
    row_step cfg w (rows, fs, k) d = ((rows ++ [row])%list, fs', k') /\
    if String.eqb (action row) REPLACE_MASTER_WITH_SOURCE then
      fs' = mkdir_p (QUAR cfg) fs /\
      exists n,
        quarantine_path row = Paths.joinpath (QUAR cfg) n /\
        (n = Paths.name (master row) \/
         exists t, n = stamped_name (master row) (clock w t))
    else fs' = fs /\ quarantine_path row = "".
Proof.
  intros Hm. unfold row_step.
  destruct (target_path_for cfg w fs k (d_src d)) as [[tdir tpath] k1].
  destruct (String.eqb (d_action d) REPLACE_MASTER_WITH_SOURCE) eqn:Ea.
  - destruct Hm as [m Hm]; [by apply String.eqb_eq |]. rewrite Hm.
    unfold quarantine_for.
    destruct (path_exists (mkdir_p (QUAR cfg) fs)
                (Paths.joinpath (QUAR cfg) (Paths.name m))).
    + eexists _, _, _. split; [done |]. cbn [action]. rewrite Ea.
      split; [done |]. eexists. split; [done |]. right. by eexists.
    + eexists _, _, _. split; [done |]. cbn [action]. rewrite Ea.
      split; [done |]. eexists. split; [done |]. by left.
  - destruct (d_master d) as [m |];
      eexists _, _, _; (split; [done |]); cbn [action]; by rewrite Ea.
Qed.

(** X9. A row of a generated plan records a quarantine path exactly when
    its action is REPLACE_MASTER_WITH_SOURCE; the path then lies directly
    under the quarantine root and carries the master's file name, or that
    name with [_<timestamp>] before its suffix. *)
Theorem quarantine_path_iff_replace (cfg : Config) (w : World) (fs : FS)
    (MASTER_FILES SOURCE_FILES : list string) (groups : list (list string))
    (r : PlanRow) :
  r ∈ plan_rows (make_plan cfg w fs MASTER_FILES SOURCE_FILES groups) ->
  (quarantine_path r <> "" <-> action r = REPLACE_MASTER_WITH_SOURCE) /\
  (action r = REPLACE_MASTER_WITH_SOURCE ->
   exists n,
     quarantine_path r = Paths.joinpath (QUAR cfg) n /\
     (n = Paths.name (master r) \/
      exists t, n = stamped_name (master r) (clock w t))).
Proof.
  destruct (make_plan_unfold cfg w fs MASTER_FILES SOURCE_FILES groups)
    as (_ & _ & _ & ->).
  unfold build_rows. intros Hr.
  set (pairs := (plan_pairs_exact _ ++ plan_pairs_sim _)%list) in *.
  destruct (build_rows_Forall cfg w
              (fun r =>
                 if String.eqb (action r) REPLACE_MASTER_WITH_SOURCE then
                   exists n,
                     quarantine_path r = Paths.joinpath (QUAR cfg) n /\
                     (n = Paths.name (master r) \/
                      exists t, n = stamped_name (master r) (clock w t))
                 else quarantine_path r = "")
              (fun _ => True) pairs) with (rows := @nil PlanRow) (fs := fs) (k := 0%nat)
    as [Hall _]; [| done | constructor |].
  { intros rows fs0 k d Hd _.
    destruct (row_step_quarantine cfg w rows fs0 k d) as (row & fs' & k' & Hstep & H).
    - by eapply planner_replace_has_master.
    - exists row, fs', k'. split; [done |]. split; [done |].
      destruct (String.eqb (action row) _); by destruct H. }
  rewrite Forall_forall in Hall. specialize (Hall r Hr).
  destruct (String.eqb (action r) REPLACE_MASTER_WITH_SOURCE) eqn:Ea.
  - apply String.eqb_eq in Ea. destruct Hall as (n & Hq & Hn). split.
    + split; [done |]. intros _. rewrite Hq. apply joinpath_nonempty.
    + intros _. by exists n.
  - apply String.eqb_neq in Ea. split; [| done].
    split; [by rewrite Hall | done].
Qed.

Lemma quarantine_path_iff_replace_witness :
  exists r,
    r ∈ plan_rows WitnessInputs.grouped_plan /\
    action r = REPLACE_MASTER_WITH_SOURCE /\ quarantine_path r <> "".
Proof.
  destruct (plan_rows WitnessInputs.grouped_plan) as [| r rest] eqn:E;
    [vm_compute in E; discriminate |].
  assert (action r = REPLACE_MASTER_WITH_SOURCE) as Ha.
  { vm_compute in E. inversion E. reflexivity. }
  assert (r ∈ plan_rows WitnessInputs.grouped_plan) as Hin.
  { rewrite E. apply list_elem_of_here. }
  exists r. split; [by rewrite <- E |]. split; [exact Ha |].
  destruct (quarantine_path_iff_replace default_config Examples.vacation_world
              Examples.vacation_fs [Examples.vacation_master]
              [Examples.vacation_source]
              [[Examples.vacation_master; Examples.vacation_source]] r Hin)
    as [Hiff _].
  by apply Hiff.
Defined.

Lemma has_replace_snoc (rows : list PlanRow) (row : PlanRow) :
  has_replace (rows ++ [row])
  = has_replace rows || String.eqb (action row) REPLACE_MASTER_WITH_SOURCE.
Proof. unfold has_replace. rewrite existsb_app. cbn. by rewrite orb_false_r. Qed.

Lemma build_rows_tree (cfg : Config) (w : World) (fs0 : FS) (pairs : list Decision) :
  (forall d, d ∈ pairs -> replace_has_master d) ->
  forall rows fs k,
    fs = (if has_replace rows then mkdir_p (QUAR cfg) fs0 else fs0) ->
    let res := fold_left (row_step cfg w) pairs (rows, fs, k) in
    snd (fst res)
    = if has_replace (fst (fst res)) then mkdir_p (QUAR cfg) fs0 else fs0.
Proof.
  induction pairs as [| d pairs IH]; intros Hm rows fs k Hfs; cbn [fold_left].
  - done.
  - destruct (row_step_quarantine cfg w rows fs k d) as (row & fs' & k' & -> & H).
    { apply Hm, list_elem_of_here. }
    apply IH.
    + intros d0 Hd0. by apply Hm, list_elem_of_further.
    + rewrite has_replace_snoc.
      destruct (String.eqb (action row) REPLACE_MASTER_WITH_SOURCE).
      * destruct H as [-> _]. rewrite orb_true_r, Hfs.
        destruct (has_replace rows); [apply mkdir_p_idempotent | done].
      * destruct H as [-> _]. by rewrite orb_false_r.
Qed.


(** Strings without a given character. *)

Lemma rsplit_cons_None (c x : ascii) (s : string) :
  Paths.rsplit c (String x s) = None <-> x <> c /\ Paths.rsplit c s = None.
Proof.
  cbn [Paths.rsplit]. destruct (Paths.rsplit c s) as [[l r] |].
  - split; [done | by intros [_ ?]].
  - destruct (Ascii.eqb x c) eqn:E.
    + apply Ascii.eqb_eq in E. split; [done | by intros [? _]].
    + apply Ascii.eqb_neq in E. by split.
Qed.

Lemma rsplit_append_None (c : ascii) (a b : string) :
  Paths.rsplit c (a +:+ b) = None
  <-> Paths.rsplit c a = None /\ Paths.rsplit c b = None.
Proof.
  induction a as [| x a IH].
  - change ("" +:+ b) with b. cbn [Paths.rsplit]. tauto.
  - rewrite append_cons, !rsplit_cons_None, IH. tauto.
Qed.

Lemma pretty_N_go_without (c : ascii) (x : N) :
  (forall d, (d < 10)%N -> pretty_N_char d <> c) ->
  forall s, Paths.rsplit c s = None -> Paths.rsplit c (pretty_N_go x s) = None.
Proof.
  intros Hc. induction (N.lt_wf_0 x) as [x _ IH]; intros s Hs.
  assert (x = 0 \/ 0 < x)%N as [-> | Hx] by lia.
  - by rewrite pretty_N_go_0.
  - rewrite pretty_N_go_step by done. apply IH.
    + by apply N.div_lt.
    + apply rsplit_cons_None. split; [| done].
      apply Hc. by apply N.mod_lt.
Qed.

Lemma pretty_Z_without_slash (z : Z) : Paths.rsplit "/" (pretty z) = None.
Proof.
  assert (forall x : N, Paths.rsplit "/" (pretty x) = None) as HN.
  { intros x. unfold pretty, pretty_N. destruct (decide (x = 0%N)); [done |].
    apply pretty_N_go_without; [| done].
    intros d Hd.
    assert (d = 0 \/ d = 1 \/ d = 2 \/ d = 3 \/ d = 4 \/ d = 5 \/ d = 6 \/ d = 7
            \/ d = 8 \/ d = 9)%N as Hcases by lia.
    repeat (destruct Hcases as [-> | Hcases]; [done |]). by subst. }
  destruct z as [| p | p]; [done | apply (HN (Npos p)) |].
  change (pretty (Z.neg p)) with ("-" +:+ pretty (Npos p)).
  apply rsplit_append_None. split; [done | apply HN].
Qed.

Lemma stem_no_separator (p : string) : Paths.rsplit "/" (Paths.stem p) = None.
Proof.
  pose proof (name_no_separator p) as H.
  rewrite <- stem_suffix in H. by apply rsplit_append_None in H as [? _].
Qed.

Lemma suffix_no_separator (p : string) : Paths.rsplit "/" (Paths.suffix p) = None.
Proof.
  pose proof (name_no_separator p) as H.
  rewrite <- stem_suffix in H. by apply rsplit_append_None in H as [_ ?].
Qed.

Lemma stamped_name_no_separator (p : string) (ts : Z) :
  Paths.rsplit "/" (stamped_name p ts) = None.
Proof.
  unfold stamped_name. rewrite !rsplit_append_None.
  split; [apply stem_no_separator |]. split; [done |].
  split; [apply pretty_Z_without_slash | apply suffix_no_separator].
Qed.

(** [(d / n).name == n] for a name without separator. *)
Lemma name_joinpath_plain (d n : string) :
  Paths.rsplit "/" n = None -> Paths.name (Paths.joinpath d n) = n.
Proof.
  intros Hn. unfold Paths.joinpath, Paths.name.
  change (d +:+ "/" +:+ n) with (d +:+ String "/" n).
  by rewrite rsplit_append.
Qed.

Lemma append_assoc (a b c : string) : (a +:+ b) +:+ c = a +:+ b +:+ c.
Proof. induction a as [| x a IH]; [done |]. by rewrite !append_cons, IH. Qed.

Lemma split_ext_suffix (n : string) :
  snd (Paths.split_ext n) <> "" ->
  exists l r,
    Paths.split_ext n = (l, String "." r) /\
    l <> "" /\ r <> "" /\ Paths.rsplit "." r = None.
Proof.
  unfold Paths.split_ext.
  destruct (Paths.rsplit "." n) as [[l r] |] eqn:E; [| done].
  destruct (bool_decide (l = "") || bool_decide (r = "")) eqn:Eb; [done |].
  intros _. apply rsplit_Some in E as [_ Hr].
  apply orb_false_iff in Eb as [Hl Hrne].
  apply bool_decide_eq_false in Hl, Hrne. by exists l, r.
Qed.

Lemma split_ext_append (l r : string) :
  l <> "" -> r <> "" -> Paths.rsplit "." r = None ->
  Paths.split_ext (l +:+ String "." r) = (l, String "." r).
Proof.
  intros Hl Hr Hnone. unfold Paths.split_ext.
  rewrite rsplit_append by done.
  by rewrite (bool_decide_eq_false_2 _ Hl), (bool_decide_eq_false_2 _ Hr).
Qed.

(** A stamped name keeps a non-empty suffix. *)
Lemma stamped_name_suffix (p : string) (ts : Z) :
  Paths.suffix p <> "" ->
  snd (Paths.split_ext (stamped_name p ts)) = Paths.suffix p.
Proof.
  unfold stamped_name, Paths.stem, Paths.suffix. intros Hs.
  destruct (split_ext_suffix _ Hs) as (l & r & -> & Hl & Hr & Hnone).
  cbn [fst snd].
  rewrite <- (append_assoc "_" (pretty ts)), <- (append_assoc l).
  rewrite split_ext_append; [done | | done | done].
  intros H. apply (f_equal String.length) in H.
  rewrite !length_append in H. cbn in H. lia.
Qed.

Lemma target_path_for_name (cfg : Config) (w : World) (fs : FS) (k : nat) (p : string) :
  let '(tdir, tpath, _) := target_path_for cfg w fs k p in
  exists n,
    tpath = Paths.joinpath tdir n /\
    Paths.rsplit "/" n = None /\
    (Paths.suffix p <> "" -> snd (Paths.split_ext n) = Paths.suffix p).
Proof.
  unfold target_path_for.
  set (dest_dir := Paths.joinpath (MASTER cfg) (exif_yyyy_mm w p)).
  set (dest := Paths.joinpath dest_dir (Paths.name p)).
  assert (Paths.suffix dest = Paths.suffix p) as Hsuf.
  { unfold Paths.suffix, dest. by rewrite name_joinpath. }
  destruct (path_exists fs dest && negb (filecmp fs p dest)).
  - exists (stamped_name dest (clock w k)). split; [done |].
    split; [apply stamped_name_no_separator |].
    intros Hs. rewrite <- Hsuf in *. by apply stamped_name_suffix.
  - exists (Paths.name p). split; [done |].
    split; [apply name_no_separator | done].
Qed.

Lemma row_step_target (cfg : Config) (w : World)
    (rows : list PlanRow) (fs : FS) (k : nat) (d : Decision) :
  exists row fs' k',
    row_step cfg w (rows, fs, k) d = ((rows ++ [row])%list, fs', k') /\
    exists k1,
      target_path_for cfg w fs k (src row) = (target_dir row, target_path row, k1).
Proof.
  unfold row_step.
  destruct (target_path_for cfg w fs k (d_src d)) as [[tdir tpath] k1] eqn:Et.
  destruct (d_master d) as [m |].
  - destruct (String.eqb (d_action d) REPLACE_MASTER_WITH_SOURCE).
    + destruct (quarantine_for cfg w fs k1 m) as [[q fs'] k'].
      eexists _, _, _. split; [done |]. exists k1. cbn [src target_dir target_path]. exact Et.
    + eexists _, _, _. split; [done |]. exists k1. cbn [src target_dir target_path]. exact Et.
  - eexists _, _, _. split; [done |]. exists k1. cbn [src target_dir target_path]. exact Et.
Qed.

(** X11. In a generated plan the target path of a row lies directly in the
    row's target directory (it is the directory, a separator and a file name
    without separator), so the [mkdir] that apply makes for the row creates
    the folder the file is moved into.  When the source has an extension,
    the target keeps it, also when the name is stamped, and so the file
    keeps its type rank. *)
Theorem target_in_its_directory_keeps_extension (cfg : Config) (w : World) (fs : FS)
    (MASTER_FILES SOURCE_FILES : list string) (groups : list (list string))
    (r : PlanRow) :
  r ∈ plan_rows (make_plan cfg w fs MASTER_FILES SOURCE_FILES groups) ->
  target_path r = Paths.joinpath (target_dir r) (Paths.name (target_path r)) /\
  (Paths.suffix (src r) <> "" ->
   Paths.suffix (target_path r) = Paths.suffix (src r) /\
   file_type_rank cfg (target_path r) = file_type_rank cfg (src r)).
Proof.
  destruct (make_plan_unfold cfg w fs MASTER_FILES SOURCE_FILES groups)
    as (_ & _ & _ & ->).
  unfold build_rows. intros Hr.
  set (pairs := (plan_pairs_exact _ ++ plan_pairs_sim _)%list) in *.
  destruct (build_rows_Forall cfg w
              (fun r =>
                 exists n,
                   target_path r = Paths.joinpath (target_dir r) n /\
                   Paths.rsplit "/" n = None /\
                   (Paths.suffix (src r) <> "" ->
                    snd (Paths.split_ext n) = Paths.suffix (src r)))
              (fun _ => True) pairs) with (rows := @nil PlanRow) (fs := fs) (k := 0%nat)
    as [Hall _]; [| done | constructor |].
  { intros rows fs0 k d _ _.
    destruct (row_step_target cfg w rows fs0 k d) as (row & fs' & k' & Hstep & k1 & Ht).
    exists row, fs', k'. split; [done |]. split; [done |].
    pose proof (target_path_for_name cfg w fs0 k (src row)) as H.
    by rewrite Ht in H. }
  rewrite Forall_forall in Hall. destruct (Hall r Hr) as (n & Ht & Hn & Hs).
  assert (Paths.name (target_path r) = n) as Hname.
  { rewrite Ht. by apply name_joinpath_plain. }
  split; [by rewrite Hname |].
  intros Hne.
  assert (Paths.suffix (target_path r) = Paths.suffix (src r)) as Hsuf.
  { unfold Paths.suffix at 1. rewrite Hname. by apply Hs. }
  split; [done |]. unfold file_type_rank. by rewrite Hsuf.
Qed.

Lemma target_in_its_directory_keeps_extension_witness :
  exists r,
    r ∈ plan_rows WitnessInputs.taken_plan /\
    Paths.suffix (src r) <> "" /\
    Paths.suffix (target_path r) = Paths.suffix (src r).
Proof.
  destruct (plan_rows WitnessInputs.taken_plan) as [| r rest] eqn:E;
    [vm_compute in E; discriminate |].
  assert (src r = TargetExamples.img_a) as Hsrc.
  { vm_compute in E. inversion E. reflexivity. }
  assert (r ∈ plan_rows WitnessInputs.taken_plan) as Hin.
  { rewrite E. apply list_elem_of_here. }
  assert (Paths.suffix (src r) <> "") as Hne.
  { rewrite Hsrc. vm_compute. discriminate. }
  exists r. split; [by rewrite <- E |]. split; [exact Hne |].
  destruct (target_in_its_directory_keeps_extension default_config
              TargetExamples.clash_world TargetExamples.taken_fs
              [] [TargetExamples.img_a] [] r Hin) as [_ Hkeep].
  by destruct (Hkeep Hne).
Defined.

(** ** Apply executor *)

Lemma move_if_exists_other (from to p : string) (st : ApplyState) :
  p <> from -> p <> to ->
  a_fs (move_if_exists from to st) !! p = a_fs st !! p.
Proof.
  intros Hf Ht. unfold move_if_exists.
  destruct (a_fs st !! from); [| done].
  cbn [a_fs]. by rewrite lookup_insert_ne, lookup_delete_ne.
Qed.

Lemma do_mkdir_other (d p : string) (st : ApplyState) :
  p ∉ (Paths.ancestors d ++ [d])%list ->
  a_fs (do_mkdir d st) !! p = a_fs st !! p.
Proof. intros Hp. cbn [do_mkdir a_fs]. unfold mkdir_p. by apply mkdir_fold_other. Qed.

Lemma row_effect_frame (cfg : Config) (st : ApplyState) (row : PlanRow) (p : string) :
  p ∉ row_moves_from row -> p ∉ row_writes cfg row ->
  a_fs (row_effect cfg st row) !! p = a_fs st !! p.
Proof.
  unfold row_moves_from, row_writes, row_mkdirs.
  intros Hr Hw. unfold row_effect, quarantine_step.
  destruct (is_keep row); [done |].
  apply not_elem_of_app in Hw as [Hd Hw].
  destruct (is_move_source row).
  - apply not_elem_of_cons in Hr as [Hs _]. apply not_elem_of_cons in Hw as [Ht _].
    cbn [tally_moved a_fs].
    destruct (DRY_RUN cfg); [by apply do_mkdir_other |].
    rewrite move_if_exists_other by done. by apply do_mkdir_other.
  - destruct (is_replace row); [| by apply do_mkdir_other].
    apply not_elem_of_app in Hr as [Hm Hs]. apply not_elem_of_cons in Hs as [Hs _].
    apply not_elem_of_app in Hw as [Hq Ht]. apply not_elem_of_cons in Ht as [Ht _].
    cbn [tally_replaced a_fs].
    destruct (DRY_RUN cfg); [by apply do_mkdir_other |].
    rewrite move_if_exists_other by done.
    destruct (String.eqb (quarantine_path row) ""); [by apply do_mkdir_other |].
    apply not_elem_of_cons in Hm as [Hm _].
    destruct (path_exists _ _); [| by apply do_mkdir_other].
    apply not_elem_of_app in Hq as [Hqa Hq].
    apply not_elem_of_cons in Hq as [Hqq Hq].
    apply not_elem_of_cons in Hq as [Hqp _].
    rewrite move_if_exists_other by done.
    rewrite do_mkdir_other; [by apply do_mkdir_other |].
    rewrite not_elem_of_app, not_elem_of_cons. split; [done |].
    split; [done | apply not_elem_of_nil].
Qed.



Lemma from_tree_mkdir_fold (fs0 : FS) (ds : list string) :
  forall fs, from_tree fs0 fs -> from_tree fs0 (fold_left mkdir_one ds fs).
Proof.
  induction ds as [| d ds IH]; intros fs H; cbn [fold_left]; [done |].
  apply IH. unfold mkdir_one. destruct (path_exists fs d); [done |].
  intros p n. destruct (decide (d = p)) as [<- | Hne].
  - rewrite lookup_insert_eq. intros [= <-]. by left.
  - rewrite lookup_insert_ne by done. apply H.
Qed.

Lemma from_tree_move (fs0 : FS) (from to : string) (st : ApplyState) :
  from_tree fs0 (a_fs st) -> from_tree fs0 (a_fs (move_if_exists from to st)).
Proof.
  intros H. unfold move_if_exists.
  destruct (a_fs st !! from) as [n0 |] eqn:E; [| done].
  cbn [a_fs]. intros p n. destruct (decide (to = p)) as [<- | Hne].
  - rewrite lookup_insert_eq. intros [= <-]. by eapply H.
  - rewrite lookup_insert_ne by done.
    destruct (decide (from = p)) as [<- | Hne'].
    + by rewrite lookup_delete_eq.
    + rewrite lookup_delete_ne by done. apply H.
Qed.

Lemma from_tree_row (cfg : Config) (fs0 : FS) (st : ApplyState) (row : PlanRow) :
  from_tree fs0 (a_fs st) -> from_tree fs0 (a_fs (row_effect cfg st row)).
Proof.
  intros H. unfold row_effect, quarantine_step.
  destruct (is_keep row); [done |].
  assert (forall d st0, from_tree fs0 (a_fs st0) ->
                        from_tree fs0 (a_fs (do_mkdir d st0))) as Hmk.
  { intros d st0 H0. cbn [do_mkdir a_fs]. unfold mkdir_p.
    by apply from_tree_mkdir_fold. }
  pose proof (Hmk (target_dir row) st H) as H1.
  destruct (is_move_source row).
  - destruct (DRY_RUN cfg); [done |]. by apply from_tree_move.
  - destruct (is_replace row); [| done].
    destruct (DRY_RUN cfg); [done |]. apply from_tree_move.
    destruct (String.eqb _ _); [done |].
    destruct (path_exists _ _); [| done].
    apply from_tree_move. by apply Hmk.
Qed.

Lemma from_tree_rows (cfg : Config) (fs0 : FS) (rows : list PlanRow) :
  forall st,
    from_tree fs0 (a_fs st) ->
    from_tree fs0 (a_fs (fold_left (row_effect cfg) rows st)).
Proof.
  induction rows as [| row rows IH]; intros st H0; cbn [fold_left]; [done |].
  by apply IH, from_tree_row.
Qed.

(** X13. Apply never writes file contents of its own: every file of the
    tree it leaves is a file that the tree held before the run, bytes
    unchanged, at the same path or at the path it was moved to. *)
Theorem apply_only_moves_what_exists (cfg : Config) (rows : list PlanRow)
    (fs : FS) (p : string) (bytes : string) :
  run_fs (do_apply cfg (Some rows) fs) !! p = Some (File bytes) ->
  exists q, fs !! q = Some (File bytes).
Proof.
  rewrite do_apply_finishes. cbn [run_fs]. intros Hp.
  assert (from_tree fs (a_fs (initial_state fs))) as H0.
  { intros q n Hq. right. by exists q. }
  pose proof (from_tree_rows cfg fs rows _ H0) as H.
  by destruct (H p (File bytes) Hp) as [? | ?].
Qed.

Lemma apply_only_moves_what_exists_witness :
  exists q, ApplyExamples.move_fs !! q = Some (File "abc").
Proof.
  apply (apply_only_moves_what_exists Examples.live_config ApplyExamples.move_plan
           ApplyExamples.move_fs ApplyExamples.img_target "abc").
  vm_compute. reflexivity.
Defined.

(** X14. A plan that holds only KEEP_MASTER rows is inert, in dry-run and
    in live mode: apply makes no call on the file tree, not even a [mkdir],
    leaves the tree as it is, and reports every row as kept. *)
Theorem keep_only_plan_is_inert (cfg : Config) (rows : list PlanRow) (fs : FS) :
  Forall (fun r => action r = KEEP_MASTER) rows ->
  exists st out,
    do_apply cfg (Some rows) fs = Finished st out /\
    a_fs st = fs /\ a_events st = [] /\
    kept st = List.length rows /\ moved st = 0%nat /\ replaced st = 0%nat.
Proof.
  intros Hkeep. eexists _, _. split; [apply do_apply_finishes |].
  assert (forall st,
            a_fs (fold_left (row_effect cfg) rows st) = a_fs st /\
            a_events (fold_left (row_effect cfg) rows st) = a_events st /\
            kept (fold_left (row_effect cfg) rows st)
            = (kept st + List.length rows)%nat /\
            moved (fold_left (row_effect cfg) rows st) = moved st /\
            replaced (fold_left (row_effect cfg) rows st) = replaced st) as H.
  { induction Hkeep as [| row rows Hrow _ IH]; intros st; cbn [fold_left].
    - cbn. repeat split; lia.
    - destruct (IH (row_effect cfg st row)) as (-> & -> & -> & -> & ->).
      unfold row_effect, is_keep. rewrite Hrow, String.eqb_refl.
      cbn. repeat split; lia. }
  destruct (H (initial_state fs)) as (-> & -> & -> & -> & ->). by cbn.
Qed.

Lemma keep_only_plan_is_inert_witness :
  exists st out,
    do_apply Examples.live_config (Some [MoreInputs.keep_row])
      Examples.vacation_fs = Finished st out /\
    a_fs st = Examples.vacation_fs.
Proof.
  destruct (keep_only_plan_is_inert Examples.live_config [MoreInputs.keep_row]
              Examples.vacation_fs) as (st & out & Hrun & Hfs & _).
  - apply Forall_cons. split; [reflexivity | apply Forall_nil_2].
  - exists st, out. split; [exact Hrun | exact Hfs].
Defined.









(** ** Catalog *)

Lemma ascii_lower_idempotent (c : ascii) : Paths.ascii_lower (Paths.ascii_lower c) = Paths.ascii_lower c.
Proof. by destruct c as [[] [] [] [] [] [] [] []]. Qed.

Lemma ascii_lower_dot (c : ascii) :
  Ascii.eqb (Paths.ascii_lower c) "." = Ascii.eqb c ".".
Proof. by destruct c as [[] [] [] [] [] [] [] []]. Qed.

Lemma lower_idempotent (s : string) : Paths.lower (Paths.lower s) = Paths.lower s.
Proof.
  induction s as [| c s IH]; [done |].
  cbn [Paths.lower]. by rewrite ascii_lower_idempotent, IH.
Qed.

Lemma lower_lstrip_dot (s : string) :
  Paths.lower (Paths.lstrip_dot s) = Paths.lstrip_dot (Paths.lower s).
Proof.
  induction s as [| c s IH]; [done |].
  cbn [Paths.lower Paths.lstrip_dot]. rewrite ascii_lower_dot.
  by destruct (Ascii.eqb c ".").
Qed.

Lemma lstrip_dot_idempotent (s : string) :
  Paths.lstrip_dot (Paths.lstrip_dot s) = Paths.lstrip_dot s.
Proof.
  induction s as [| c s IH]; [done |].
  cbn [Paths.lstrip_dot]. destruct (Ascii.eqb c ".") eqn:E; [done |].
  cbn [Paths.lstrip_dot]. by rewrite E.
Qed.

Lemma file_ext_normal (p : string) : normal_ext (file_ext p) = true.
Proof.
  unfold normal_ext, file_ext.
  rewrite lower_lstrip_dot, lower_idempotent, lstrip_dot_idempotent.
  by rewrite !String.eqb_refl.
Qed.

Lemma existsb_normal (e : string) (EXTS : list string) :
  normal_ext e = true ->
  existsb (String.eqb e) (filter (fun x => Is_true (normal_ext x)) EXTS)
  = existsb (String.eqb e) EXTS.
Proof.
  intros He. induction EXTS as [| x EXTS IH]; [done |].
  rewrite filter_cons. destruct (decide (Is_true (normal_ext x))) as [Hx | Hx].
  - cbn [existsb]. by rewrite IH.
  - cbn [existsb]. rewrite IH.
    destruct (String.eqb e x) eqn:E; [| done].
    apply String.eqb_eq in E. subst x. rewrite He in Hx. by destruct Hx.
Qed.

(** X19. [is_media] compares the file's extension in lower case and
    without leading dot, so only the entries of EXTS of that form count: an
    entry with an upper-case letter or a leading dot (".jpg") matches no
    file, and scanning with it or without it gives the same catalog.  Every
    scanned path is a regular file of the listing whose extension is in
    EXTS, and the catalog keeps the order of the listing. *)
Theorem scan_files_uses_normal_extensions (EXTS : list string) (fs : FS)
    (rglob : list string) :
  scan_files EXTS fs rglob
  = scan_files (filter (fun x => Is_true (normal_ext x)) EXTS) fs rglob /\
  scan_files EXTS fs rglob `sublist_of` rglob /\
  (forall p, p ∈ scan_files EXTS fs rglob ->
     (exists bytes, fs !! p = Some (File bytes)) /\ file_ext p ∈ EXTS).
Proof.
  split; [| split].
  - unfold scan_files. apply list_filter_iff. intros p.
    unfold is_media. by rewrite existsb_normal by apply file_ext_normal.
  - apply sublist_filter.
  - intros p Hp. apply list_elem_of_filter in Hp as [Hm _].
    unfold is_media, is_file in Hm.
    apply Is_true_true, andb_true_iff in Hm as [Hf He].
    split.
    + destruct (fs !! p) as [[bytes |] |]; try done. by exists bytes.
    + apply existsb_exists in He as (e & Hin & Heq).
      apply String.eqb_eq in Heq as ->. by apply list_elem_of_In.
Qed.

(** ** Capture bucket *)

Lemma has_colon_snoc (s : string) (c : ascii) :
  has_colon (s +:+ String c EmptyString) = has_colon s || Ascii.eqb c ":".
Proof.
  induction s as [| x s IH].
  - change ("" +:+ String c "") with (String c ""). cbn. by rewrite orb_false_r.
  - rewrite append_cons. cbn [has_colon]. rewrite IH. by rewrite orb_assoc.
Qed.

Lemma split_colon_from_fields (s : string) :
  forall cur,
    has_colon cur = false ->
    Forall (fun f => has_colon f = false) (split_colon_from cur s).
Proof.
  induction s as [| c s IH]; intros cur Hcur; cbn [split_colon_from].
  - by constructor.
  - destruct (Ascii.eqb c ":") eqn:E.
    + constructor; [done | by apply IH].
    + apply IH. by rewrite has_colon_snoc, Hcur, E.
Qed.

Lemma bucket_of_line_shape (line b : string) :
  bucket_of_line line = Some b ->
  exists y m,
    b = y +:+ "/" +:+ m /\
    String.length y = 4%nat /\ String.length m = 2%nat /\
    has_colon y = false /\ has_colon m = false.
Proof.
  unfold bucket_of_line.
  destruct (negb (String.eqb (strip line) "") && has_colon line); [| done].
  pose proof (split_colon_from_fields (strip line) "" eq_refl) as Hf.
  fold (split_colon (strip line)) in Hf.
  destruct (split_colon (strip line)) as [| y [| m rest]]; try done.
  destruct ((String.length y =? 4)%nat && (String.length m =? 2)%nat) eqn:E; [| done].
  apply andb_true_iff in E as [Hy Hm].
  apply Nat.eqb_eq in Hy, Hm. intros [= <-].
  inversion Hf as [| ? ? Hcy Hf']; subst. inversion Hf' as [| ? ? Hcm _]; subst.
  by exists y, m.
Qed.

Lemma first_bucket_first (lines : list string) (b : string) :
  first_bucket lines = Some b <->
  exists pre line post,
    lines = (pre ++ line :: post)%list /\
    Forall (fun l => bucket_of_line l = None) pre /\
    bucket_of_line line = Some b.
Proof.
  induction lines as [| l lines IH]; cbn [first_bucket].
  - split; [done |]. intros (pre & line & post & H & _). by destruct pre.
  - destruct (bucket_of_line l) as [b' |] eqn:E.
    + split.
      * intros [= <-]. exists [], l, lines. by repeat split.
      * intros (pre & line & post & H & Hpre & Hline).
        destruct pre as [| l' pre]; cbn in H; inversion H; subst.
        -- congruence.
        -- inversion Hpre; subst. congruence.
    + rewrite IH. split.
      * intros (pre & line & post & -> & Hpre & Hline).
        exists (l :: pre), line, post. split; [done |]. split; [by constructor | done].
      * intros (pre & line & post & H & Hpre & Hline).
        destruct pre as [| l' pre]; cbn in H; inversion H; subst.
        -- congruence.
        -- inversion Hpre; subst. by exists pre, line, post.
Qed.


(** ** Exact-duplicate groups *)

Lemma member_path_entry (x : Json) (p : string) :
  member_path x = Some p <-> member_entry x p.
Proof.
  unfold member_entry, member_path. split.
  - destruct x as [| | | | | fields]; try done.
    destruct (dict_get fields "path") as [[| | | s | |] |] eqn:E; try done.
    intros [= ->]. by exists fields.
  - intros (fields & -> & Hp). by rewrite Hp.
Qed.


(** X22. The decoding is all or nothing: when the output is not an object,
    or ["matches"] is neither a list, a dict nor text, or any member of any
    match is not a dict with a text ["path"], an exception escapes and no
    group at all is returned. *)
Theorem jdupes_groups_all_or_nothing (js : Json) :
  (forall fields, js <> JObj fields) \/
  (exists fields v,
      js = JObj fields /\ dict_get fields "matches" = Some v /\
      (py_iter v = None \/
       exists ms g, py_iter v = Some ms /\ g ∈ ms /\
         (py_iter g = None \/
          exists xs x, py_iter g = Some xs /\ x ∈ xs /\ member_path x = None))) ->
  jdupes_groups js = None.
Proof.
  intros [Hno | (fields & v & -> & Hv & Hbad)].
  - destruct js; try done. by destruct (Hno fields).
  - unfold jdupes_groups. rewrite Hv.
    destruct Hbad as [-> | (ms & g & -> & Hg & Hbad)]; [done |].
    cbn [mbind option_bind]. apply mapM_None. apply Exists_exists.
    exists g. split; [done |].
    destruct Hbad as [-> | (xs & x & -> & Hx & Hnone)]; [done |].
    cbn [mbind option_bind]. apply mapM_None. apply Exists_exists. by exists x.
Qed.

Lemma jdupes_groups_all_or_nothing_witness :
  jdupes_groups
    (JObj [("matches",
            JArr [JArr [JObj [("path", JStr "/data/MobileBackup/a.jpg")];
                        JObj [("size", JNum 3)]]])]) = None.
Proof.
  apply jdupes_groups_all_or_nothing. right.
  eexists _, _. split; [reflexivity |]. split; [reflexivity |]. right.
  eexists _, _. split; [reflexivity |]. split; [apply list_elem_of_here |]. right.
  eexists _, (JObj [("size", JNum 3)]). split; [reflexivity |].
  split; [apply list_elem_of_further, list_elem_of_here | reflexivity].
Defined.

(** ** The scan finds what is close *)

Lemma hash_table_has (w : World) (paths : list string) (p : string) :
  p ∈ paths -> (p, phash w p) ∈ collect_by_phash w paths.
Proof.
  intros Hp. destruct (collect_by_phash_spec w paths) as (_ & Hval & Hmem).
  apply Hmem, list_elem_of_In, in_map_iff in Hp as ([k v] & Hk & Hin).
  cbn in Hk. subst k. apply list_elem_of_In in Hin.
  rewrite Forall_forall in Hval. pose proof (Hval _ Hin) as Hv. cbn in Hv.
  by subst v.
Qed.

Lemma decisions_of_source (cfg : Config) (w : World) (fs : FS)
    (MASTER_FILES SOURCE_FILES : list string) (groups : list (list string))
    (s : string) :
  s ∈ SOURCE_FILES ->
  s ∉ snd (exact_phase cfg w groups) ->
  decisions_of s
    (plan_pairs_sim (make_plan cfg w fs MASTER_FILES SOURCE_FILES groups))
  = [near_decision cfg w (collect_by_phash w MASTER_FILES) (s, phash w s)].
Proof.
  intros Hs Hnot.
  destruct (make_plan_unfold cfg w fs MASTER_FILES SOURCE_FILES groups)
    as (_ & Hdups & -> & _).
  rewrite Hdups in Hnot. unfold near_phase.
  apply filter_by_key.
  - intros item. apply near_decision_src.
  - apply collect_by_phash_spec.
  - apply hash_table_has. by apply list_elem_of_filter.
Qed.

(** X23. The scan misses no close master: when an unresolved source file
    has a hash and some enumerated master file has a hash within the
    threshold of it (for instance the same hash, with a threshold of 0 or
    more), the source gets a KEEP_MASTER or REPLACE_MASTER_WITH_SOURCE
    decision, naming an enumerated master whose hash is at least as close. *)
Theorem close_master_is_matched (cfg : Config) (w : World) (fs : FS)
    (MASTER_FILES SOURCE_FILES : list string) (groups : list (list string))
    (s m : string) (sh mh : N) :
  s ∈ SOURCE_FILES ->
  s ∉ snd (exact_phase cfg w groups) ->
  phash w s = Some sh ->
  m ∈ MASTER_FILES ->
  phash w m = Some mh ->
  (hamming sh mh <= PHASH_THRESHOLD cfg)%Z ->
  exists d m' mh',
    decisions_of s
      (plan_pairs_sim (make_plan cfg w fs MASTER_FILES SOURCE_FILES groups)) = [d] /\
    d_master d = Some m' /\ m' ∈ MASTER_FILES /\ phash w m' = Some mh' /\
    (hamming sh mh' <= hamming sh mh)%Z /\
    (d_action d = KEEP_MASTER \/ d_action d = REPLACE_MASTER_WITH_SOURCE).
Proof.
  intros Hs Hnot Hsh Hm Hmh Hclose.
  exists (near_decision cfg w (collect_by_phash w MASTER_FILES) (s, phash w s)).
  rewrite (decisions_of_source cfg w fs MASTER_FILES SOURCE_FILES groups s Hs Hnot).
  assert ((m, hamming sh mh) ∈ present_distances sh (collect_by_phash w MASTER_FILES))
    as Hpres.
  { unfold present_distances. apply list_elem_of_omap.
    exists (m, Some mh). split; [| done].
    rewrite <- Hmh. by apply hash_table_has. }
  unfold near_decision. cbn [fst snd]. rewrite Hsh.
  pose proof (nearest_master_first_least sh (collect_by_phash w MASTER_FILES)) as Hfl.
  destruct (nearest_master sh (collect_by_phash w MASTER_FILES)) as [best_d [m' |]];
    cbn [first_least] in Hfl.
  - destruct Hfl as (l1 & l2 & Hsplit & H1 & H2).
    assert ((m', best_d) ∈ present_distances sh (collect_by_phash w MASTER_FILES))
      as Hin'.
    { rewrite Hsplit, elem_of_app, elem_of_cons. auto. }
    apply present_distances_elem in Hin' as (mh' & Hmh' & ->).
    apply master_hash_elem in Hmh' as [Hmf' Hph'].
    assert (hamming sh mh' <= hamming sh mh)%Z as Hle.
    { rewrite Hsplit in Hpres. rewrite Forall_forall in H1, H2.
      apply elem_of_app in Hpres as [Hp | Hp].
      - specialize (H1 _ Hp). cbn in H1. lia.
      - apply elem_of_cons in Hp as [Hp | Hp].
        + inversion Hp. lia.
        + specialize (H2 _ Hp). cbn in H2. lia. }
    assert ((hamming sh mh' <=? PHASH_THRESHOLD cfg)%Z = true) as ->
      by (apply Z.leb_le; lia).
    exists m', mh'.
    destruct (String.eqb (better cfg w s m') s); cbn [d_master d_action]; auto 10.
  - destruct Hfl as [Hnil _]. rewrite Hnil in Hpres. by apply elem_of_nil in Hpres.
Qed.

Lemma close_master_is_matched_witness :
  exists d m',
    decisions_of Examples.vacation_source
      (plan_pairs_sim WitnessInputs.ungrouped_plan) = [d] /\
    d_master d = Some m'.
Proof.
  assert (Examples.vacation_source
            ∉ snd (exact_phase default_config Examples.vacation_world [])) as Hnot.
  { apply (bool_decide_unpack _). vm_compute. exact I. }
  destruct (close_master_is_matched default_config Examples.vacation_world
              Examples.vacation_fs [Examples.vacation_master]
              [Examples.vacation_source] []
              Examples.vacation_source Examples.vacation_master 0%N 0%N
              (list_elem_of_here _ _) Hnot eq_refl (list_elem_of_here _ _) eq_refl)
    as (d & m' & mh' & Hd & Hm & _).
  - vm_compute. discriminate.
  - by exists d, m'.
Defined.

